(** * jquery.shapeshift: the masonry layout engine, embedded and verified

    A shallow embedding of [src/core/jquery.shapeshift.js]: the column-count
    derivation, the greedy shortest-column packing pass and the resize
    reactor, followed by the properties the specification states about
    them.

    Modelling conventions.
    - A JavaScript number is a [num]: an integer [Fin z], one of the two
      infinities, or [NaN].  Fractional numbers are not in the model.  On
      [Fin] operands [add], [mul] and [floor_div] compute in [Z]; they are
      the program's double arithmetic as long as the operands and the
      result are integers of magnitude at most 2^53 - 1 ([safe]), where
      [+], [*] and [Math.floor(a / b)] on doubles are exact.  A theorem
      whose conclusion depends on the value such an operation returns
      carries that range as a hypothesis ([safe] on the numbers of a
      count, [exact_pass] on the numbers of a packing pass); outside it
      the program rounds and the theorem says nothing.  The sign of zero
      is not tracked (it is invisible to [===], [<] and [indexOf]).
    - A JavaScript value that may be missing is a [value]: [VUndef] or a
      number.
    - The plugin object is a record threaded through the methods; a method
      that mutates [this] returns the new record.
    - The only loop whose trip count is not a list length
      ([_resetColHeights]) runs on fuel, so that a pass that never finishes
      is visible as [None] for every amount of fuel.
    - jQuery is outside the repository: measurements are data of the DOM
      model ([element], [dom]) and the calls handed to [css] are recorded in
      a trace.  The height of an item is measured once, at registration,
      and kept in the item; its width is read again from the element at
      every pack ([child.$el.width()]).  An [element] holds what these
      readings return, so a statement about one pass is about the widths
      read in that pass, and a statement about several events
      ([reachable], [resized]) is about items whose measured width stays
      the same from one event to the next. *)

From stdpp Require Import list strings.
From Stdlib Require Import ZArith Lia.

Local Open Scope Z_scope.

(** ** JavaScript numbers and values *)

Module JS.

Inductive num : Type :=
| Fin (z : Z)
| PInf
| NInf
| NaN.

Inductive value : Type :=
| VUndef
| VNum (n : num).

(** [ToNumber]: [undefined] converts to [NaN]. *)
Definition to_number (v : value) : num :=
  match v with
  | VUndef => NaN
  | VNum n => n
  end.

(** [a + b] on numbers.  On two integers the sum is computed in [Z]: it
    is the program's sum when the operands and the sum are of magnitude
    at most 2^53 - 1; beyond, the program rounds. *)
Definition add (a b : num) : num :=
  match a, b with
  | NaN, _ | _, NaN => NaN
  | Fin p, Fin q => Fin (p + q)
  | PInf, NInf | NInf, PInf => NaN
  | PInf, _ | _, PInf => PInf
  | NInf, _ | _, NInf => NInf
  end.

(** The infinity carrying the sign of [s * t] for [t] infinite of sign
    [pos]; [0 * Infinity] is [NaN]. *)
Definition signed_inf (s : Z) (pos : bool) : num :=
  match s with
  | Z0 => NaN
  | Zpos _ => if pos then PInf else NInf
  | Zneg _ => if pos then NInf else PInf
  end.

(** [a * b] on numbers.  On two integers the product is computed in [Z]:
    it is the program's product when the operands and the product are of
    magnitude at most 2^53 - 1; beyond, the program rounds. *)
Definition mul (a b : num) : num :=
  match a, b with
  | NaN, _ | _, NaN => NaN
  | Fin p, Fin q => Fin (p * q)
  | Fin p, PInf | PInf, Fin p => signed_inf p true
  | Fin p, NInf | NInf, Fin p => signed_inf p false
  | PInf, PInf | NInf, NInf => PInf
  | PInf, NInf | NInf, PInf => NInf
  end.

(** [Math.floor(a / b)].  On finite operands with a non-zero divisor this
    is floor division, which is what [Z.div] computes for either sign of
    the divisor; a zero divisor gives an infinity of the sign of the
    dividend, or [NaN] for [0 / 0].  For integer operands of magnitude at
    most 2^53 - 1 the rounded quotient of the program has the same floor
    as the exact one; beyond, the operands themselves are rounded. *)
Definition floor_div (a b : num) : num :=
  match a, b with
  | NaN, _ | _, NaN => NaN
  | Fin p, Fin q => if q =? 0 then signed_inf p true else Fin (p / q)
  | Fin _, PInf | Fin _, NInf => Fin 0
  | PInf, Fin q => if q <? 0 then NInf else PInf
  | NInf, Fin q => if q <? 0 then PInf else NInf
  | PInf, PInf | PInf, NInf | NInf, PInf | NInf, NInf => NaN
  end.

(** [a === b] on numbers: [NaN] equals nothing, itself included. *)
Definition num_eqb (a b : num) : bool :=
  match a, b with
  | Fin p, Fin q => p =? q
  | PInf, PInf | NInf, NInf => true
  | _, _ => false
  end.

(** [a === b] and [a !== b] on values. *)
Definition strict_eq (a b : value) : bool :=
  match a, b with
  | VUndef, VUndef => true
  | VNum p, VNum q => num_eqb p q
  | _, _ => false
  end.

Definition strict_neq (a b : value) : bool := negb (strict_eq a b).

(** [a < b] on numbers: every comparison with [NaN] is false. *)
Definition ltb (a b : num) : bool :=
  match a, b with
  | NaN, _ | _, NaN => false
  | Fin p, Fin q => p <? q
  | _, NInf => false
  | NInf, _ => true
  | PInf, _ => false
  | Fin _, PInf => true
  end.

(** [Math.min] of two arguments, and of an argument list: [NaN] if any
    argument is [NaN], [+Infinity] for no argument at all. *)
Definition min2 (a b : num) : num :=
  match a, b with
  | NaN, _ | _, NaN => NaN
  | _, _ => if ltb b a then b else a
  end.

Definition Math_min (l : list num) : num := foldr min2 PInf l.

(** [Array.prototype.indexOf]: the first position holding a value strictly
    equal to [v], counted from [k]; [-1] when there is none. *)
Fixpoint indexOf_from (k : Z) (l : list num) (v : num) : Z :=
  match l with
  | [] => -1
  | a :: l' => if num_eqb a v then k else indexOf_from (k + 1) l' v
  end.

Definition indexOf (l : list num) (v : num) : Z := indexOf_from 0 l v.

(** An array of numbers as the plugin uses [colHeights]: the indexed
    elements, and the one non-index property the code can create on it,
    the key [-1] (absent properties read as [undefined]). *)
Record array : Type := mkArray {
  elems : list num;
  prop_m1 : value
}.

Definition array_of (l : list num) : array := mkArray l VUndef.

(** [a[i]]. *)
Definition get (a : array) (i : Z) : value :=
  if i =? -1 then prop_m1 a
  else if i <? 0 then VUndef
  else match elems a !! Z.to_nat i with
       | Some v => VNum v
       | None => VUndef
       end.

(** [a[i] = v] for [i] an existing index or [-1], the two kinds of key
    that [indexOf] can return; the array is left as it is for any other
    key (see [_fitMinIndex_range]). *)
Definition put (a : array) (i : Z) (v : num) : array :=
  if i =? -1 then mkArray (elems a) (VNum v)
  else if i <? 0 then a
  else mkArray (<[Z.to_nat i := v]> (elems a)) (prop_m1 a).

Definition is_fin (n : num) : Prop :=
  match n with
  | Fin _ => True
  | _ => False
  end.

Definition is_nan (n : num) : bool :=
  match n with
  | NaN => true
  | _ => false
  end.

(** The order of the extended integers, for numbers that are not [NaN]. *)
Definition num_le (a b : num) : Prop :=
  match a, b with
  | NaN, _ | _, NaN => False
  | NInf, _ => True
  | _, PInf => True
  | Fin p, Fin q => p <= q
  | _, _ => False
  end.

End JS.

Import JS.

(** ** The data of the plugin *)

(** What the geometry primitives of jQuery report for one item:
    [$el.width()] and [$el.height()].  The width is what every call of
    [$el.width()] returns for the item: the item keeps its measured
    width. *)
Record element : Type := mkElement {
  el_width : num;
  el_height : num
}.

(** The container as the plugin sees it when it is constructed. *)
Record dom : Type := mkDom {
  dom_width : num;
  dom_children : list element
}.

(** One entry of [this.children]. *)
Record child : Type := mkChild {
  el : element;
  index : Z;
  height : num;
  x : num;
  y : value
}.

(** What is observable from outside: a ghost mark for every run of
    [_packChild], and every position handed to [css] by [_positionChild]. *)
Inductive event : Type :=
| Packed (i : Z)
| Placed (i : Z) (px : num) (py : value).

Record options : Type := mkOptions {
  gutter : num * num
}.

Definition defaults : options := mkOptions (Fin 20, Fin 10).

(** [$.extend({}, defaults, options)] for the one recognised option. *)
Definition extend (user : option options) : options :=
  match user with
  | Some o => o
  | None => defaults
  end.

Record plugin : Type := mkPlugin {
  identifier : Z;
  children : list child;
  colHeights : array;
  gutterX : num;
  gutterY : num;
  colWidth : value;
  containerWidth : value;
  colCount : value;
  trace : list event
}.

Definition set_children (st : plugin) (cs : list child) : plugin :=
  mkPlugin (identifier st) cs (colHeights st) (gutterX st) (gutterY st)
           (colWidth st) (containerWidth st) (colCount st) (trace st).

Definition set_colHeights (st : plugin) (a : array) : plugin :=
  mkPlugin (identifier st) (children st) a (gutterX st) (gutterY st)
           (colWidth st) (containerWidth st) (colCount st) (trace st).

Definition set_containerWidth (st : plugin) (w : value) : plugin :=
  mkPlugin (identifier st) (children st) (colHeights st) (gutterX st)
           (gutterY st) (colWidth st) w (colCount st) (trace st).

Definition set_colCount (st : plugin) (n : value) : plugin :=
  mkPlugin (identifier st) (children st) (colHeights st) (gutterX st)
           (gutterY st) (colWidth st) (containerWidth st) n (trace st).

Definition emit (st : plugin) (e : event) : plugin :=
  mkPlugin (identifier st) (children st) (colHeights st) (gutterX st)
           (gutterY st) (colWidth st) (containerWidth st) (colCount st)
           (trace st ++ [e]).

(** ** The methods of [Plugin.prototype] *)

(** [_getColumnCount]. *)
Definition _getColumnCount (st : plugin) : num :=
  let available_width := add (to_number (containerWidth st)) (gutterX st) in
  let adjusted_col_width := add (to_number (colWidth st)) (gutterX st) in
  floor_div available_width adjusted_col_width.

(** The loop of [_resetColHeights]: [for (i = 0; i < columns; i++)
    colHeights[i] = 0], entered at counter [i] with [acc] built so far. *)
Fixpoint reset_loop (fuel : nat) (columns : num) (i : Z) (acc : list num)
  : option (list num) :=
  match fuel with
  | O => None
  | S fuel' =>
      if ltb (Fin i) columns
      then reset_loop fuel' columns (i + 1) (acc ++ [Fin 0])
      else Some acc
  end.

(** [_resetColHeights]. *)
Definition _resetColHeights (fuel : nat) (st : plugin) : option plugin :=
  let columns := _getColumnCount st in
  match reset_loop fuel columns 0 [] with
  | None => None
  | Some colHeights' =>
      Some (set_colCount (set_colHeights st (array_of colHeights'))
                         (VNum (Fin (Z.of_nat (length colHeights')))))
  end.

(** [_fitMinIndex]. *)
Definition _fitMinIndex (a : array) : Z :=
  indexOf (elems a) (Math_min (elems a)).

(** [_packChild]: the plugin after the call, and the child as mutated.
    [el_width (el c)] is the reading [child.$el.width()] of this call;
    [height c] is the height cached at registration. *)
Definition _packChild (st : plugin) (c : child) : plugin * child :=
  let column := _fitMinIndex (colHeights st) in
  let padding_offset := mul (Fin column) (gutterX st) in
  let c' := mkChild (el c) (index c) (height c)
              (add (mul (Fin column) (el_width (el c))) padding_offset)
              (get (colHeights st) column) in
  let h := add (to_number (get (colHeights st) column))
               (add (height c) (gutterY st)) in
  (emit (set_colHeights st (put (colHeights st) column h)) (Packed (index c)),
   c').

(** [this.children.forEach(this._packChild.bind(this))]. *)
Fixpoint pack_each (st : plugin) (cs : list child) : plugin * list child :=
  match cs with
  | [] => (st, [])
  | c :: cs' =>
      let '(st1, c') := _packChild st c in
      let '(st2, cs'') := pack_each st1 cs' in
      (st2, c' :: cs'')
  end.

(** [_pack]. *)
Definition _pack (st : plugin) : plugin :=
  let '(st', cs') := pack_each st (children st) in
  set_children st' cs'.

(** [_positionChild]. *)
Definition _positionChild (st : plugin) (c : child) : plugin :=
  emit st (Placed (index c) (x c) (y c)).

(** [render]. *)
Definition render (st : plugin) : plugin :=
  foldl _positionChild st (children st).

(** [update]. *)
Definition update (st : plugin) : plugin := render (_pack st).

(** [_columnCountChanged]. *)
Definition _columnCountChanged (fuel : nat) (st : plugin) : option plugin :=
  match _resetColHeights fuel st with
  | None => None
  | Some st' => Some (update st')
  end.

(** [_containerWidthChanged]. *)
Definition _containerWidthChanged (fuel : nat) (st : plugin) : option plugin :=
  let column_count := _getColumnCount st in
  if strict_neq (VNum column_count) (colCount st)
  then _columnCountChanged fuel (set_colCount st (VNum column_count))
  else Some st.

(** [_updateContainerWidth], the resize handler; [container_width] is what
    [this.$element.width()] measures when it runs. *)
Definition _updateContainerWidth (fuel : nat) (container_width : num)
    (st : plugin) : option plugin :=
  if strict_neq (VNum container_width) (containerWidth st)
  then _containerWidthChanged fuel
         (set_containerWidth st (VNum container_width))
  else Some st.

(** [_setColumnWidth]: the width of the first child of the container;
    jQuery reports [undefined] for an empty selection. *)
Definition _setColumnWidth (d : dom) : value :=
  match dom_children d with
  | [] => VUndef
  | e :: _ => VNum (el_width e)
  end.

(** [_setupGlobals]; [ident] stands for the random token drawn by
    [_setIdentifier].  [containerWidth] and [colCount] are not assigned
    here and read as [undefined] until the first measurement. *)
Definition _setupGlobals (ident : Z) (o : options) (d : dom) : plugin :=
  mkPlugin ident [] (array_of []) (fst (gutter o)) (snd (gutter o))
           (_setColumnWidth d) VUndef VUndef [].

(** [_addNewChild]. *)
Definition _addNewChild (st : plugin) (e : element) (n : Z) : plugin :=
  set_children st (children st ++ [mkChild e n (el_height e) (Fin 0) (VNum (Fin 0))]).

(** [$children.each((n, el) => this._addNewChild(el, n))], from position
    [n] on. *)
Fixpoint each_child (st : plugin) (n : Z) (es : list element) : plugin :=
  match es with
  | [] => st
  | e :: es' => each_child (_addNewChild st e n) (n + 1) es'
  end.

(** [_parseChildren]. *)
Definition _parseChildren (d : dom) (st : plugin) : plugin :=
  each_child (set_children st []) 0 (dom_children d).

(** [init], as run by the constructor on the merged options. *)
Definition init (fuel : nat) (ident : Z) (user : option options) (d : dom)
  : option plugin :=
  let st := _setupGlobals ident (extend user) d in
  let st := _parseChildren d st in
  _updateContainerWidth fuel (dom_width d) st.

(** ** Numbers: equality, order and minimum *)

Definition not_nan (n : num) : Prop := is_nan n = false.

Lemma is_fin_not_nan n : is_fin n → not_nan n.
Proof. by destruct n. Qed.

Lemma is_fin_inv n : is_fin n → ∃ z, n = Fin z.
Proof. destruct n; simpl; intros H; try done. by exists z. Qed.

Lemma num_eqb_eq a b : num_eqb a b = true → a = b.
Proof.
  destruct a, b; simpl; try done.
  intros H. apply Z.eqb_eq in H. by subst.
Qed.

Lemma num_eqb_refl a : not_nan a → num_eqb a a = true.
Proof. destruct a; simpl; try done. intros _. apply Z.eqb_refl. Qed.

Lemma num_eqb_nan_r a : num_eqb a NaN = false.
Proof. by destruct a. Qed.

(** On numbers, strict equality of values is equality of numbers that are
    not [NaN]. *)
Lemma strict_eq_num a b :
  strict_eq (VNum a) (VNum b) = true ↔ a = b ∧ not_nan a.
Proof.
  simpl. split.
  - intros H. pose proof (num_eqb_eq _ _ H) as ->. split; [done|].
    destruct b; simpl in *; done.
  - intros [-> H]. by apply num_eqb_refl.
Qed.

Lemma num_le_refl a : not_nan a → num_le a a.
Proof. destruct a; simpl; intros; try done; lia. Qed.

Lemma num_le_trans a b c : num_le a b → num_le b c → num_le a c.
Proof. destruct a, b, c; simpl; intros; try done; lia. Qed.

Lemma num_le_not_nan_l a b : num_le a b → not_nan a.
Proof. by destruct a, b. Qed.

Lemma min2_spec a b :
  not_nan a → not_nan b →
  (min2 a b = a ∧ num_le a b) ∨ (min2 a b = b ∧ num_le b a ∧ a ≠ b).
Proof.
  destruct a as [p| | |], b as [q| | |]; simpl; try done; intros _ _;
    try (left; split; [done|simpl; lia]);
    try (right; split; [done|split; [simpl; lia|done]]).
  destruct (Z.ltb_spec q p).
  - right. split; [done|]. split; [lia|]. intros [=]. lia.
  - left. split; [done|lia].
Qed.

Lemma Math_min_cons a l : Math_min (a :: l) = min2 a (Math_min l).
Proof. reflexivity. Qed.

Lemma min2_nan_r a : min2 a NaN = NaN.
Proof. by destruct a. Qed.

Lemma Math_min_nan l : NaN ∈ l → Math_min l = NaN.
Proof.
  induction l as [|a l IH]; intros H.
  - by apply elem_of_nil in H.
  - rewrite Math_min_cons.
    apply elem_of_cons in H as [<-|H]; [done|].
    rewrite IH by done. apply min2_nan_r.
Qed.

Lemma Math_min_lower l :
  Forall not_nan l →
  not_nan (Math_min l) ∧ ∀ v, v ∈ l → num_le (Math_min l) v.
Proof.
  induction 1 as [|a l Ha _ [IHn IHl]].
  - split; [done|]. intros v H. by apply elem_of_nil in H.
  - rewrite Math_min_cons.
    destruct (min2_spec a (Math_min l) Ha IHn) as [[-> Hle]|(-> & Hle & _)].
    + split; [done|]. intros v [->|Hv]%elem_of_cons.
      * by apply num_le_refl.
      * eapply num_le_trans; [exact Hle|by apply IHl].
    + split; [done|]. intros v [->|Hv]%elem_of_cons; [done|by apply IHl].
Qed.

Lemma Math_min_elem l :
  l ≠ [] → Forall not_nan l → Math_min l ∈ l.
Proof.
  intros Hne H. induction H as [|a l Ha Hl IH]; [done|].
  rewrite Math_min_cons.
  destruct l as [|b l].
  - destruct a; simpl in *; try done; apply list_elem_of_here.
  - destruct (Math_min_lower (b :: l) Hl) as [Hn _].
    destruct (min2_spec a (Math_min (b :: l)) Ha Hn) as [[-> _]|(-> & _)].
    + apply list_elem_of_here.
    + apply list_elem_of_further, IH. done.
Qed.

(** ** [indexOf] *)

Lemma indexOf_from_spec k l v :
  (indexOf_from k l v = -1 ∧ ∀ a, a ∈ l → num_eqb a v = false)
  ∨ ∃ i a, indexOf_from k l v = k + Z.of_nat i
           ∧ l !! i = Some a ∧ num_eqb a v = true
           ∧ ∀ j b, (j < i)%nat → l !! j = Some b → num_eqb b v = false.
Proof.
  revert k. induction l as [|a l IH]; intros k; simpl.
  - left. split; [done|]. intros a H. by apply elem_of_nil in H.
  - destruct (num_eqb a v) eqn:E.
    + right. exists 0%nat, a. split_and!; [lia|done|done|]. intros j b Hj. lia.
    + destruct (IH (k + 1)) as [[-> Hall]|(i & b & -> & Hi & Hb & Hbefore)].
      * left. split; [done|]. intros c [->|Hc]%elem_of_cons; auto.
      * right. exists (S i), b. split_and!; [lia|done|done|].
        intros [|j] c Hj Hc; simpl in Hc.
        -- by inversion Hc; subst.
        -- apply (Hbefore j); [lia|done].
Qed.

(** [_fitMinIndex] returns [-1] or an existing index, whatever the array
    holds. *)
Lemma _fitMinIndex_range a :
  -1 ≤ _fitMinIndex a < Z.of_nat (length (elems a)).
Proof.
  unfold _fitMinIndex, indexOf.
  destruct (indexOf_from_spec 0 (elems a) (Math_min (elems a)))
    as [[-> _]|(i & b & -> & Hi & _)].
  - lia.
  - apply lookup_lt_Some in Hi. lia.
Qed.

Lemma _fitMinIndex_empty a : elems a = [] → _fitMinIndex a = -1.
Proof. unfold _fitMinIndex. by intros ->. Qed.

(** Once a [NaN] sits in the array no element is strictly equal to the
    minimum, and the search fails. *)
Lemma _fitMinIndex_nan a : NaN ∈ elems a → _fitMinIndex a = -1.
Proof.
  intros H. unfold _fitMinIndex, indexOf. rewrite (Math_min_nan _ H).
  destruct (indexOf_from_spec 0 (elems a) NaN)
    as [[-> _]|(i & b & _ & _ & Hb & _)]; [done|].
  by rewrite num_eqb_nan_r in Hb.
Qed.

(** On a non-empty array of numbers the search finds the first position of
    the least element. *)
Lemma _fitMinIndex_first_min a :
  elems a ≠ [] → Forall not_nan (elems a) →
  ∃ (i : nat) (m : num),
    _fitMinIndex a = Z.of_nat i
    ∧ elems a !! i = Some m
    ∧ (∀ j v, elems a !! j = Some v → num_le m v)
    ∧ (∀ j v, (j < i)%nat → elems a !! j = Some v → v ≠ m).
Proof.
  intros Hne Hnn.
  destruct (Math_min_lower _ Hnn) as [Hmn Hlow].
  pose proof (Math_min_elem _ Hne Hnn) as Hin.
  unfold _fitMinIndex, indexOf.
  destruct (indexOf_from_spec 0 (elems a) (Math_min (elems a)))
    as [[_ Hall]|(i & b & -> & Hi & Hb & Hbefore)].
  - specialize (Hall _ Hin). by rewrite num_eqb_refl in Hall.
  - apply num_eqb_eq in Hb. subst b.
    exists i, (Math_min (elems a)). split_and!; [lia|done| |].
    + intros j v Hj. apply Hlow. by eapply list_elem_of_lookup_2.
    + intros j v Hj Hv ->. specialize (Hbefore j _ Hj Hv).
      by rewrite num_eqb_refl in Hbefore.
Qed.

(** ** One packing step *)

(** The step when the search returns an existing index. *)
Lemma _packChild_at st c (i : nat) m :
  _fitMinIndex (colHeights st) = Z.of_nat i →
  elems (colHeights st) !! i = Some m →
  _packChild st c =
    (emit (set_colHeights st
             (mkArray (<[i := add m (add (height c) (gutterY st))]>
                         (elems (colHeights st)))
                      (prop_m1 (colHeights st))))
          (Packed (index c)),
     mkChild (el c) (index c) (height c)
             (add (mul (Fin (Z.of_nat i)) (el_width (el c)))
                  (mul (Fin (Z.of_nat i)) (gutterX st)))
             (VNum m)).
Proof.
  intros Hi Hm. unfold _packChild. rewrite Hi. unfold get, put.
  destruct (Z.eqb_spec (Z.of_nat i) (-1)) as [?|_]; [lia|].
  destruct (Z.ltb_spec (Z.of_nat i) 0) as [?|_]; [lia|].
  by rewrite Nat2Z.id, Hm.
Qed.

(** The step when the search fails: the child is read from, and the sum
    written to, the property [-1]. *)
Lemma _packChild_m1 st c :
  _fitMinIndex (colHeights st) = -1 →
  _packChild st c =
    (emit (set_colHeights st
             (mkArray (elems (colHeights st))
                      (VNum (add (to_number (prop_m1 (colHeights st)))
                                 (add (height c) (gutterY st))))))
          (Packed (index c)),
     mkChild (el c) (index c) (height c)
             (add (mul (Fin (-1)) (el_width (el c)))
                  (mul (Fin (-1)) (gutterX st)))
             (prop_m1 (colHeights st))).
Proof. intros Hi. unfold _packChild. by rewrite Hi. Qed.

(** What a step never touches. *)
Lemma _packChild_frame st c :
  let st' := (_packChild st c).1 in
  let c' := (_packChild st c).2 in
  gutterX st' = gutterX st ∧ gutterY st' = gutterY st
  ∧ children st' = children st ∧ colWidth st' = colWidth st
  ∧ containerWidth st' = containerWidth st ∧ colCount st' = colCount st
  ∧ identifier st' = identifier st
  ∧ trace st' = trace st ++ [Packed (index c)]
  ∧ length (elems (colHeights st')) = length (elems (colHeights st))
  ∧ el c' = el c ∧ index c' = index c ∧ height c' = height c.
Proof.
  simpl. split_and!; try done.
  unfold put.
  destruct (_ =? -1); [done|]. destruct (_ <? 0); [done|].
  simpl. by rewrite length_insert.
Qed.

(** Plugins and items whose measurements and gutters are integers, with at
    least one column. *)
Record numeric_state (st : plugin) : Prop := mkNumericState {
  ns_columns : elems (colHeights st) ≠ [];
  ns_heights : Forall is_fin (elems (colHeights st));
  ns_gutterX : is_fin (gutterX st);
  ns_gutterY : is_fin (gutterY st)
}.

Definition numeric_child (c : child) : Prop :=
  is_fin (el_width (el c)) ∧ is_fin (height c).

Lemma Forall_is_fin_not_nan l : Forall is_fin l → Forall not_nan l.
Proof. intros H. eapply Forall_impl; [exact H|]. exact is_fin_not_nan. Qed.

(** In a numeric plugin a step picks the first least column [i], of height
    [m]; the child lands at [(i * width + i * gutterX, m)] and the column
    grows by [height + gutterY]. *)
Lemma _packChild_numeric st c :
  numeric_state st → numeric_child c →
  ∃ (i : nat) (m w h gx gy : Z),
    _fitMinIndex (colHeights st) = Z.of_nat i
    ∧ elems (colHeights st) !! i = Some (Fin m)
    ∧ (∀ j v, elems (colHeights st) !! j = Some v → num_le (Fin m) v)
    ∧ (∀ j v, (j < i)%nat → elems (colHeights st) !! j = Some v → v ≠ Fin m)
    ∧ el_width (el c) = Fin w ∧ height c = Fin h
    ∧ gutterX st = Fin gx ∧ gutterY st = Fin gy
    ∧ _packChild st c =
        (emit (set_colHeights st
                 (mkArray (<[i := Fin (m + (h + gy))]> (elems (colHeights st)))
                          (prop_m1 (colHeights st))))
              (Packed (index c)),
         mkChild (el c) (index c) (height c)
                 (Fin (Z.of_nat i * w + Z.of_nat i * gx)) (VNum (Fin m))).
Proof.
  intros [Hne Hfin Hgx Hgy] [Hw Hh].
  destruct (_fitMinIndex_first_min (colHeights st) Hne
              (Forall_is_fin_not_nan _ Hfin)) as (i & m & Hi & Hm & Hlow & Hfirst).
  assert (is_fin m) as [mz ->]%is_fin_inv.
  { eapply Forall_lookup_1 in Hfin; [exact Hfin|exact Hm]. }
  apply is_fin_inv in Hw as [w Hw]. apply is_fin_inv in Hh as [h Hh].
  apply is_fin_inv in Hgx as [gx Hgx]. apply is_fin_inv in Hgy as [gy Hgy].
  exists i, mz, w, h, gx, gy. split_and!; try done.
  rewrite (_packChild_at st c i (Fin mz) Hi Hm).
  by rewrite Hw, Hh, Hgx, Hgy.
Qed.

Lemma _packChild_numeric_state st c :
  numeric_state st → numeric_child c → numeric_state (_packChild st c).1.
Proof.
  intros Hst Hc.
  destruct (_packChild_numeric st c Hst Hc)
    as (i & m & w & h & gx & gy & _ & Hm & _ & _ & _ & _ & Hgx & Hgy & ->).
  destruct Hst as [Hne Hfin ? ?]. split; simpl; try done.
  - intros E. apply (f_equal length) in E. rewrite length_insert in E.
    destruct (elems (colHeights st)); simpl in *; done.
  - apply Forall_insert; done.
Qed.

(** ** The packing pass *)

Arguments _packChild : simpl never.

Lemma pack_each_cons st c cs :
  pack_each st (c :: cs) =
    ((pack_each (_packChild st c).1 cs).1,
     (_packChild st c).2 :: (pack_each (_packChild st c).1 cs).2).
Proof.
  cbn [pack_each]. destruct (_packChild st c) as [st1 c']. cbn [fst snd].
  by destruct (pack_each st1 cs).
Qed.

Lemma pack_each_app st cs1 cs2 :
  pack_each st (cs1 ++ cs2) =
    ((pack_each (pack_each st cs1).1 cs2).1,
     (pack_each st cs1).2 ++ (pack_each (pack_each st cs1).1 cs2).2).
Proof.
  revert st. induction cs1 as [|c cs1 IH]; intros st.
  - simpl. by destruct (pack_each st cs2).
  - rewrite <- app_comm_cons, !pack_each_cons, IH. done.
Qed.

Lemma _pack_children st : children (_pack st) = (pack_each st (children st)).2.
Proof. unfold _pack. by destruct (pack_each st (children st)). Qed.

Lemma _pack_colHeights st :
  colHeights (_pack st) = colHeights (pack_each st (children st)).1.
Proof. unfold _pack. by destruct (pack_each st (children st)). Qed.

(** The plugin as it stands when the [k]-th child is about to be packed. *)
Definition before_child (st : plugin) (k : nat) : plugin :=
  (pack_each st (take k (children st))).1.

(** The [k]-th child after the pass is the [k]-th child packed in the
    plugin left by the [k] children before it. *)
Lemma pack_each_lookup st cs k c :
  cs !! k = Some c →
  (pack_each st cs).2 !! k
  = Some (_packChild (pack_each st (take k cs)).1 c).2.
Proof.
  revert st k. induction cs as [|c0 cs IH]; intros st k Hk; [done|].
  rewrite pack_each_cons. destruct k as [|k]; simpl in Hk.
  - by inversion Hk; subst.
  - simpl take. rewrite pack_each_cons. simpl. by apply IH.
Qed.

Lemma pack_each_frame st cs :
  let st' := (pack_each st cs).1 in
  let cs' := (pack_each st cs).2 in
  gutterX st' = gutterX st ∧ gutterY st' = gutterY st
  ∧ children st' = children st ∧ colWidth st' = colWidth st
  ∧ containerWidth st' = containerWidth st ∧ colCount st' = colCount st
  ∧ identifier st' = identifier st
  ∧ trace st' = trace st ++ map (λ c, Packed (index c)) cs
  ∧ length (elems (colHeights st')) = length (elems (colHeights st))
  ∧ map el cs' = map el cs ∧ map index cs' = map index cs
  ∧ map height cs' = map height cs.
Proof.
  revert st. induction cs as [|c cs IH]; intros st.
  - simpl. split_and!; try done. by rewrite app_nil_r.
  - rewrite pack_each_cons. cbn zeta. cbn [fst snd].
    specialize (IH (_packChild st c).1). cbn zeta in IH.
    destruct IH as (-> & -> & -> & -> & -> & -> & -> & -> & -> & E1 & E2 & E3).
    destruct (_packChild_frame st c)
      as (-> & -> & -> & -> & -> & -> & -> & -> & -> & F1 & F2 & F3).
    split_and!; try done.
    + by rewrite <- app_assoc.
    + cbn [map]. by rewrite E1, F1.
    + cbn [map]. by rewrite E2, F2.
    + cbn [map]. by rewrite E3, F3.
Qed.

Lemma pack_each_numeric st cs :
  numeric_state st → Forall numeric_child cs →
  numeric_state (pack_each st cs).1.
Proof.
  intros Hst Hcs. revert st Hst.
  induction Hcs as [|c cs Hc _ IH]; intros st Hst; [done|].
  rewrite pack_each_cons. simpl. by apply IH, _packChild_numeric_state.
Qed.

(** ** The end-to-end scenario *)

Definition scenario_dom : dom :=
  mkDom (Fin 340)
        (map (λ h, mkElement (Fin 100) (Fin h)) [50; 80; 30; 60; 40]).

Definition coords (c : child) : num * value := (x c, y c).

(** The column count seen as a function of the three quantities it reads. *)
Definition computeColumnCount (container_width item_width gutter_x : num)
  : num :=
  _getColumnCount
    (mkPlugin 0 [] (array_of []) gutter_x (Fin 0) (VNum item_width)
              (VNum container_width) VUndef []).

Lemma _getColumnCount_eq st :
  _getColumnCount st
  = computeColumnCount (to_number (containerWidth st))
                       (to_number (colWidth st)) (gutterX st).
Proof. reflexivity. Qed.

Lemma computeColumnCount_fin (cw iw gx : Z) :
  iw + gx ≠ 0 →
  computeColumnCount (Fin cw) (Fin iw) (Fin gx)
  = Fin ((cw + gx) / (iw + gx)).
Proof.
  intros H. unfold computeColumnCount, _getColumnCount. simpl.
  destruct (Z.eqb_spec (iw + gx) 0); [lia|done].
Qed.

(** C1. End-to-end scenario: five items of width 100 and heights 50, 80,
    30, 60, 40 in a container of width 340 with the default gutters
    (20, 10).  The plugin computes floor((340+20)/120) = 3 columns, and the
    first pass, run by [init] on three zeroed columns, puts the items at
    (0,0), (120,0), (240,0), (240,40) and (0,60), whatever the identifier
    drawn and however much fuel is left over. *)
Theorem scenario_end_to_end (ident : Z) (spare : nat) :
  computeColumnCount (Fin 340) (Fin 100) (Fin 20) = Fin ((340 + 20) / 120)
  ∧ (340 + 20) / 120 = 3
  ∧ option_map (λ st, (colCount st, map coords (children st)))
               (init (4 + spare) ident None scenario_dom)
    = Some (VNum (Fin 3),
            [(Fin 0, VNum (Fin 0)); (Fin 120, VNum (Fin 0));
             (Fin 240, VNum (Fin 0)); (Fin 240, VNum (Fin 40));
             (Fin 0, VNum (Fin 60))])
  ∧ map coords
        (children
           (_pack (mkPlugin ident
                     (imap (λ k e, mkChild e (Z.of_nat k) (el_height e)
                                           (Fin 0) (VNum (Fin 0)))
                           (dom_children scenario_dom))
                     (array_of [Fin 0; Fin 0; Fin 0]) (Fin 20) (Fin 10)
                     (VNum (Fin 100)) (VNum (Fin 340)) (VNum (Fin 3)) [])))
    = [(Fin 0, VNum (Fin 0)); (Fin 120, VNum (Fin 0));
       (Fin 240, VNum (Fin 0)); (Fin 240, VNum (Fin 40));
       (Fin 0, VNum (Fin 60))].
Proof. split_and!; reflexivity. Qed.

(** ** Column count *)

(** The count is not an integer for every input: an item of width 0 with
    a gutter of 0 in a container of width 100 gives [+Infinity]. *)
Lemma column_count_infinite_at_zero_divisor :
  computeColumnCount (Fin 100) (Fin 0) (Fin 0) = PInf
  ∧ ¬ ∃ n : Z, 0 ≤ n ∧ computeColumnCount (Fin 100) (Fin 0) (Fin 0) = Fin n.
Proof. split; [reflexivity|]. intros (n & _ & [=]). Qed.

(** ** The greedy choice *)

(** ** Determinism of the pass *)

(** What a pass reads of an item: its element (for the width) and the
    height recorded at registration. *)
Definition geometry (c : child) : element * num := (el c, height c).

Lemma pack_each_deterministic cs1 : ∀ cs2 st1 st2,
  map geometry cs1 = map geometry cs2 →
  colHeights st1 = colHeights st2 →
  gutterX st1 = gutterX st2 → gutterY st1 = gutterY st2 →
  map coords (pack_each st1 cs1).2 = map coords (pack_each st2 cs2).2
  ∧ colHeights (pack_each st1 cs1).1 = colHeights (pack_each st2 cs2).1.
Proof.
  induction cs1 as [|c1 cs1 IH]; intros [|c2 cs2] st1 st2 Hg Hh Hx Hy;
    try discriminate; [done|].
  cbn [map] in Hg. injection Hg as He Hc Hg.
  rewrite !pack_each_cons. cbn [fst snd map].
  assert (coords (_packChild st1 c1).2 = coords (_packChild st2 c2).2
          ∧ colHeights (_packChild st1 c1).1 = colHeights (_packChild st2 c2).1)
    as [Hco Hst].
  { unfold _packChild, coords. cbn. by rewrite Hh, Hx, Hy, He, Hc. }
  destruct (_packChild_frame st1 c1) as (Gx1 & Gy1 & _).
  destruct (_packChild_frame st2 c2) as (Gx2 & Gy2 & _).
  destruct (IH cs2 (_packChild st1 c1).1 (_packChild st2 c2).1) as [E1 E2];
    try done; try congruence.
  by rewrite Hco, E1.
Qed.

(** C4. Determinism: two plugins holding the same ordered items (same
    elements, same recorded heights), the same gutters and the same number
    [n] of zeroed columns come out of the pack pass with the same
    coordinates for every item and the same column heights, whatever else
    differs between them (stale coordinates, identifier, cached widths,
    trace). *)
Theorem pack_deterministic (st1 st2 : plugin) (n : nat) :
  map geometry (children st1) = map geometry (children st2) →
  gutterX st1 = gutterX st2 → gutterY st1 = gutterY st2 →
  colHeights st1 = array_of (replicate n (Fin 0)) →
  colHeights st2 = array_of (replicate n (Fin 0)) →
  map coords (children (_pack st1)) = map coords (children (_pack st2))
  ∧ colHeights (_pack st1) = colHeights (_pack st2).
Proof.
  intros Hg Hx Hy H1 H2.
  rewrite !_pack_children, !_pack_colHeights.
  apply pack_each_deterministic; congruence.
Qed.

(** The plugin of the end-to-end scenario once [init] has returned. *)
Definition scenario_state : plugin :=
  default (_setupGlobals 0 defaults scenario_dom)
          (init 4 0 None scenario_dom).

(** The same plugin with another identifier, its columns zeroed again and
    the coordinates of the first pass still in its items. *)
Definition scenario_again : plugin :=
  mkPlugin 1 (children scenario_state) (array_of (replicate 3 (Fin 0)))
           (Fin 20) (Fin 10) (VNum (Fin 100)) (VNum (Fin 340))
           (VNum (Fin 3)) (trace scenario_state).

Definition scenario_fresh : plugin :=
  set_colCount
    (set_colHeights
       (set_containerWidth
          (_parseChildren scenario_dom (_setupGlobals 0 defaults scenario_dom))
          (VNum (Fin 340)))
       (array_of (replicate 3 (Fin 0))))
    (VNum (Fin 3)).

Lemma pack_deterministic_witness :
  map coords (children (_pack scenario_fresh))
  = map coords (children (_pack scenario_again))
  ∧ colHeights (_pack scenario_fresh) = colHeights (_pack scenario_again).
Proof.
  apply (pack_deterministic scenario_fresh scenario_again 3); reflexivity.
Defined.

(** ** The resize reactor *)

(** C5. Resize no-op: when the width measured by the resize handler is
    strictly equal ([===]) to the cached one, the handler returns at once,
    with any amount of fuel: the cached width, the column count, the
    column heights, the items with their coordinates and the trace (so no
    pack step and no placement) are what they were. *)
Theorem resize_same_width_noop (fuel : nat) (w : num) (st : plugin) :
  strict_eq (VNum w) (containerWidth st) = true →
  ∃ st', _updateContainerWidth fuel w st = Some st'
         ∧ containerWidth st' = containerWidth st
         ∧ colCount st' = colCount st
         ∧ colHeights st' = colHeights st
         ∧ children st' = children st
         ∧ trace st' = trace st.
Proof.
  intros H. exists st. unfold _updateContainerWidth, strict_neq.
  rewrite H. done.
Qed.

Lemma resize_same_width_noop_witness :
  ∃ st', _updateContainerWidth 0 (Fin 340) scenario_state = Some st'
         ∧ containerWidth st' = containerWidth scenario_state
         ∧ colCount st' = colCount scenario_state
         ∧ colHeights st' = colHeights scenario_state
         ∧ children st' = children scenario_state
         ∧ trace st' = trace scenario_state.
Proof. apply (resize_same_width_noop 0 (Fin 340) scenario_state). reflexivity. Defined.

(** C6. Column-count stability: when the measured width differs from the
    cached one but the column count recomputed from it is strictly equal
    to the stored count, the handler stores the new width and does nothing
    else: the column heights are not reset, the items keep their
    coordinates and nothing is added to the trace (no pack step, no
    placement). *)
Theorem resize_same_column_count (fuel : nat) (w : num) (st : plugin) :
  strict_neq (VNum w) (containerWidth st) = true →
  strict_eq (VNum (_getColumnCount (set_containerWidth st (VNum w))))
            (colCount st) = true →
  ∃ st', _updateContainerWidth fuel w st = Some st'
         ∧ containerWidth st' = VNum w
         ∧ colCount st' = colCount st
         ∧ colHeights st' = colHeights st
         ∧ children st' = children st
         ∧ trace st' = trace st.
Proof.
  intros Hw Hc. exists (set_containerWidth st (VNum w)).
  unfold _updateContainerWidth. rewrite Hw.
  unfold _containerWidthChanged, strict_neq.
  cbn [colCount set_containerWidth]. rewrite Hc. done.
Qed.

Lemma resize_same_column_count_witness :
  ∃ st', _updateContainerWidth 0 (Fin 350) scenario_state = Some st'
         ∧ containerWidth st' = VNum (Fin 350)
         ∧ colCount st' = colCount scenario_state
         ∧ colHeights st' = colHeights scenario_state
         ∧ children st' = children scenario_state
         ∧ trace st' = trace scenario_state.
Proof.
  apply (resize_same_column_count 0 (Fin 350) scenario_state); reflexivity.
Defined.

(** ** Rendering, registration and the reset loop *)

Lemma positionChild_foldl cs : ∀ st,
  let st' := foldl _positionChild st cs in
  children st' = children st ∧ colHeights st' = colHeights st
  ∧ gutterX st' = gutterX st ∧ gutterY st' = gutterY st
  ∧ colWidth st' = colWidth st ∧ containerWidth st' = containerWidth st
  ∧ colCount st' = colCount st ∧ identifier st' = identifier st
  ∧ trace st' = trace st ++ map (λ c, Placed (index c) (x c) (y c)) cs.
Proof.
  induction cs as [|c cs IH]; intros st.
  - simpl. split_and!; try done. by rewrite app_nil_r.
  - cbn [foldl map]. specialize (IH (_positionChild st c)). cbn zeta in IH.
    destruct IH as (-> & -> & -> & -> & -> & -> & -> & -> & ->).
    simpl. split_and!; try done. by rewrite <- app_assoc.
Qed.

Lemma render_frame st :
  children (render st) = children st ∧ colHeights (render st) = colHeights st
  ∧ gutterX (render st) = gutterX st ∧ gutterY (render st) = gutterY st
  ∧ colWidth (render st) = colWidth st
  ∧ containerWidth (render st) = containerWidth st
  ∧ colCount (render st) = colCount st
  ∧ identifier (render st) = identifier st
  ∧ trace (render st)
    = trace st ++ map (λ c, Placed (index c) (x c) (y c)) (children st).
Proof. apply (positionChild_foldl (children st) st). Qed.

Lemma _pack_frame st :
  gutterX (_pack st) = gutterX st ∧ gutterY (_pack st) = gutterY st
  ∧ colWidth (_pack st) = colWidth st
  ∧ containerWidth (_pack st) = containerWidth st
  ∧ colCount (_pack st) = colCount st
  ∧ identifier (_pack st) = identifier st
  ∧ trace (_pack st) = trace st ++ map (λ c, Packed (index c)) (children st)
  ∧ length (elems (colHeights (_pack st))) = length (elems (colHeights st))
  ∧ map el (children (_pack st)) = map el (children st)
  ∧ map index (children (_pack st)) = map index (children st)
  ∧ map height (children (_pack st)) = map height (children st).
Proof.
  pose proof (pack_each_frame st (children st)) as H. cbn zeta in H.
  rewrite _pack_children, _pack_colHeights.
  unfold _pack. destruct (pack_each st (children st)) as [st' cs'].
  cbn [fst snd] in *. simpl. tauto.
Qed.

Lemma update_children st : children (update st) = children (_pack st).
Proof. unfold update. by destruct (render_frame (_pack st)) as (-> & _). Qed.

Lemma update_colHeights st : colHeights (update st) = colHeights (_pack st).
Proof. unfold update. by destruct (render_frame (_pack st)) as (_ & -> & _). Qed.

Lemma update_colCount st : colCount (update st) = colCount st.
Proof.
  unfold update.
  destruct (render_frame (_pack st)) as (_ & _ & _ & _ & _ & _ & -> & _).
  by destruct (_pack_frame st) as (_ & _ & _ & _ & -> & _).
Qed.

Lemma each_child_frame es : ∀ st n,
  let st' := each_child st n es in
  colHeights st' = colHeights st
  ∧ gutterX st' = gutterX st ∧ gutterY st' = gutterY st
  ∧ colWidth st' = colWidth st ∧ containerWidth st' = containerWidth st
  ∧ colCount st' = colCount st ∧ identifier st' = identifier st
  ∧ trace st' = trace st
  ∧ length (children st') = (length (children st) + length es)%nat.
Proof.
  induction es as [|e es IH]; intros st n.
  - simpl. split_and!; try done; lia.
  - cbn [each_child]. specialize (IH (_addNewChild st e n) (n + 1)).
    cbn zeta in IH.
    destruct IH as (-> & -> & -> & -> & -> & -> & -> & -> & ->).
    simpl. split_and!; try done; rewrite length_app; simpl; lia.
Qed.

(** The number of columns the reset loop builds for a count that is not
    [+Infinity]: none unless the count is a positive integer. *)
Definition columns_of (count : num) : nat :=
  match count with
  | Fin n => Z.to_nat n
  | _ => 0%nat
  end.

Lemma reset_loop_fin fuel : ∀ n i acc,
  (Z.to_nat (n - i) < fuel)%nat →
  reset_loop fuel (Fin n) i acc
  = Some (acc ++ replicate (Z.to_nat (n - i)) (Fin 0)).
Proof.
  induction fuel as [|fuel IH]; intros n i acc Hf; [lia|].
  cbn [reset_loop ltb]. destruct (Z.ltb_spec i n) as [Hlt|Hge].
  - rewrite IH by lia. f_equal. rewrite <- app_assoc. f_equal.
    replace (Z.to_nat (n - i)) with (S (Z.to_nat (n - (i + 1)))) by lia.
    done.
  - replace (Z.to_nat (n - i)) with 0%nat by lia. by rewrite app_nil_r.
Qed.

Lemma reset_loop_total fuel count :
  count ≠ PInf → (columns_of count < fuel)%nat →
  reset_loop fuel count 0 [] = Some (replicate (columns_of count) (Fin 0)).
Proof.
  intros Hc Hf. destruct count as [n| | |]; try done.
  - rewrite reset_loop_fin; simpl in *; rewrite ?Z.sub_0_r; [done|lia].
  - destruct fuel; [simpl in Hf; lia|done].
  - destruct fuel; [simpl in Hf; lia|done].
Qed.

(** With a count of [+Infinity] the loop never leaves. *)
Lemma reset_loop_infinite fuel : ∀ i acc, reset_loop fuel PInf i acc = None.
Proof. induction fuel as [|fuel IH]; intros i acc; [done|]. simpl. apply IH. Qed.

(** The plugin at the point where [init] has measured the container. *)
Definition measured (ident : Z) (user : option options) (d : dom) : plugin :=
  set_containerWidth (_parseChildren d (_setupGlobals ident (extend user) d))
                     (VNum (dom_width d)).

Lemma measured_fields ident user d :
  colHeights (measured ident user d) = array_of []
  ∧ gutterX (measured ident user d) = fst (gutter (extend user))
  ∧ gutterY (measured ident user d) = snd (gutter (extend user))
  ∧ colWidth (measured ident user d) = _setColumnWidth d
  ∧ containerWidth (measured ident user d) = VNum (dom_width d)
  ∧ colCount (measured ident user d) = VUndef
  ∧ trace (measured ident user d) = []
  ∧ length (children (measured ident user d)) = length (dom_children d).
Proof.
  unfold measured, _parseChildren.
  pose proof (each_child_frame (dom_children d)
                (set_children (_setupGlobals ident (extend user) d) []) 0) as H.
  cbn zeta in H. destruct H as (H1 & H2 & H3 & H4 & H5 & H6 & H7 & H8 & H9).
  cbn [colHeights gutterX gutterY colWidth containerWidth colCount trace
       children set_containerWidth].
  rewrite H1, H2, H3, H4, H6, H8, H9. done.
Qed.

Lemma _getColumnCount_set_colCount st v :
  _getColumnCount (set_colCount st v) = _getColumnCount st.
Proof. reflexivity. Qed.

(** [init] always goes through the reset: nothing is strictly equal to the
    [undefined] that the cached width and count hold at first. *)
Lemma init_unfold fuel ident user d :
  init fuel ident user d
  = _columnCountChanged fuel
      (set_colCount (measured ident user d)
                    (VNum (_getColumnCount (measured ident user d)))).
Proof.
  unfold init, _updateContainerWidth.
  pose proof (each_child_frame (dom_children d)
                (set_children (_setupGlobals ident (extend user) d) []) 0) as H.
  cbn zeta in H. destruct H as (_ & _ & _ & _ & H5 & H6 & _).
  unfold _parseChildren. rewrite H5. cbn [containerWidth set_children _setupGlobals].
  cbn [strict_neq strict_eq negb].
  unfold _containerWidthChanged.
  cbn [colCount set_containerWidth]. rewrite H6.
  cbn [colCount set_children _setupGlobals strict_neq strict_eq negb].
  reflexivity.
Qed.

(** [init] returns as soon as the fuel covers the columns to build, and
    never when the count is [+Infinity]. *)
Lemma init_returns fuel ident user d :
  let st := measured ident user d in
  let count := _getColumnCount st in
  count ≠ PInf → (columns_of count < fuel)%nat →
  init fuel ident user d
  = Some (update
            (set_colCount
               (set_colHeights (set_colCount st (VNum count))
                               (array_of (replicate (columns_of count) (Fin 0))))
               (VNum (Fin (Z.of_nat (columns_of count)))))).
Proof.
  intros st count Hc Hf. rewrite init_unfold.
  unfold _columnCountChanged, _resetColHeights.
  rewrite _getColumnCount_set_colCount. fold st. fold count.
  rewrite (reset_loop_total fuel count Hc Hf).
  by rewrite length_replicate.
Qed.

Lemma init_hangs_on_infinite_count fuel ident user d :
  _getColumnCount (measured ident user d) = PInf →
  init fuel ident user d = None.
Proof.
  intros Hc. rewrite init_unfold.
  unfold _columnCountChanged, _resetColHeights.
  rewrite _getColumnCount_set_colCount, Hc. by rewrite reset_loop_infinite.
Qed.

(** ** The stable state *)

(** The state the reactor rests in between events: a width has been
    cached, and the stored count is the length of the height array. *)
Definition Stable (st : plugin) : Prop :=
  (∃ w, containerWidth st = VNum w)
  ∧ colCount st = VNum (Fin (Z.of_nat (length (elems (colHeights st))))).

Lemma update_containerWidth st : containerWidth (update st) = containerWidth st.
Proof.
  unfold update.
  destruct (render_frame (_pack st)) as (_ & _ & _ & _ & _ & -> & _).
  by destruct (_pack_frame st) as (_ & _ & _ & -> & _).
Qed.

Lemma update_columns st :
  length (elems (colHeights (update st))) = length (elems (colHeights st)).
Proof.
  rewrite update_colHeights.
  by destruct (_pack_frame st) as (_ & _ & _ & _ & _ & _ & _ & -> & _).
Qed.

Lemma _columnCountChanged_Stable fuel st st' :
  (∃ w, containerWidth st = VNum w) →
  _columnCountChanged fuel st = Some st' → Stable st'.
Proof.
  intros [w Hw] H. unfold _columnCountChanged, _resetColHeights in H.
  destruct (reset_loop fuel (_getColumnCount st) 0 []) as [r|]; [|done].
  injection H as <-. split.
  - exists w. by rewrite update_containerWidth.
  - by rewrite update_colCount, update_columns.
Qed.

Lemma init_Stable fuel ident user d st :
  init fuel ident user d = Some st → Stable st.
Proof.
  rewrite init_unfold. apply _columnCountChanged_Stable.
  exists (dom_width d). reflexivity.
Qed.

(** Every resize notification that is handled to the end leaves a stable
    state stable. *)
Lemma resize_Stable fuel w st st' :
  Stable st → _updateContainerWidth fuel w st = Some st' → Stable st'.
Proof.
  intros [Hw Hc] H. unfold _updateContainerWidth in H.
  destruct (strict_neq (VNum w) (containerWidth st)).
  - unfold _containerWidthChanged in H.
    destruct (strict_neq _ _).
    + eapply _columnCountChanged_Stable; [|exact H]. by exists w.
    + injection H as <-. split; [by exists w|exact Hc].
  - injection H as <-. by split.
Qed.

Lemma scenario_state_Stable : Stable scenario_state.
Proof. apply (init_Stable 4 0 None scenario_dom). vm_compute. reflexivity. Qed.

(** ** A divisor that is not positive *)





(** ** The pass on numeric data *)




(** ** Accumulation across passes *)

(** The total of an array of column heights, as JavaScript would add it
    up, and the amount one pass is due to add: every item's height plus
    the vertical gutter. *)
Definition sum_num (l : list num) : num := foldr add (Fin 0) l.

Definition pass_increment (st : plugin) : num :=
  sum_num (map (λ c, add (height c) (gutterY st)) (children st)).

Definition fin_val (n : num) : Z :=
  match n with
  | Fin z => z
  | _ => 0
  end.

Definition zsum (l : list num) : Z := foldr (λ n s, fin_val n + s) 0 l.

Definition zincr (gy : num) (cs : list child) : Z :=
  foldr (λ c s, fin_val (height c) + fin_val gy + s) 0 cs.

Lemma sum_num_cons a l : sum_num (a :: l) = add a (sum_num l).
Proof. reflexivity. Qed.

Lemma sum_num_fin l : Forall is_fin l → sum_num l = Fin (zsum l).
Proof.
  induction 1 as [|a l Ha _ IH]; [done|].
  apply is_fin_inv in Ha as [z ->]. by rewrite sum_num_cons, IH.
Qed.

Lemma increment_fin gy cs :
  is_fin gy → Forall numeric_child cs →
  sum_num (map (λ c, add (height c) gy) cs) = Fin (zincr gy cs).
Proof.
  intros [g ->]%is_fin_inv. induction 1 as [|c cs [_ Hh] _ IH]; [done|].
  apply is_fin_inv in Hh as [h Hh].
  cbn [map]. rewrite sum_num_cons, IH, Hh. simpl. rewrite Hh. simpl. f_equal; lia.
Qed.

Lemma zsum_insert l : ∀ (i : nat) m v,
  l !! i = Some (Fin m) → zsum (<[i := Fin v]> l) = zsum l - m + v.
Proof.
  induction l as [|a l IH]; intros [|i] m v H; try done.
  - simpl in H. injection H as ->. simpl. lia.
  - simpl in *. rewrite (IH i m v H). lia.
Qed.

Lemma pack_each_total st cs :
  numeric_state st → Forall numeric_child cs →
  zsum (elems (colHeights (pack_each st cs).1))
  = zsum (elems (colHeights st)) + zincr (gutterY st) cs.
Proof.
  intros Hst Hcs. revert st Hst.
  induction Hcs as [|c cs Hc _ IH]; intros st Hst; [simpl; lia|].
  rewrite pack_each_cons. cbn [fst].
  rewrite (IH _ (_packChild_numeric_state st c Hst Hc)).
  destruct (_packChild_numeric st c Hst Hc)
    as (i & m & w & h & gx & gy & _ & Hm & _ & _ & _ & Hh & _ & Hgy & ->).
  cbn. rewrite (zsum_insert _ i m _ Hm), Hh, Hgy. simpl. unfold zincr. simpl. lia.
Qed.

Lemma numeric_child_transport cs : ∀ cs',
  Forall numeric_child cs →
  map el cs' = map el cs → map height cs' = map height cs →
  Forall numeric_child cs'.
Proof.
  induction cs as [|c cs IH]; intros [|c' cs'] H He Hh; try done.
  cbn [map] in *. injection He as He1 He. injection Hh as Hh1 Hh.
  apply Forall_cons in H as [[Hw Hc] H]. constructor.
  - split; congruence.
  - by apply IH.
Qed.

Lemma update_numeric st :
  numeric_state st → Forall numeric_child (children st) →
  numeric_state (update st) ∧ Forall numeric_child (children (update st))
  ∧ pass_increment (update st) = pass_increment st.
Proof.
  intros Hst Hcs.
  destruct (_pack_frame st) as (Hgx & Hgy & _ & _ & _ & _ & _ & _ & Hel & _ & Hh).
  destruct (render_frame (_pack st)) as (Rc & Rh & Rgx & Rgy & _).
  pose proof (pack_each_numeric st _ Hst Hcs) as [P1 P2 P3 P4].
  split_and!.
  - destruct Hst as [_ _ Sgx Sgy].
    unfold update. split; rewrite ?Rh, ?Rgx, ?Rgy, ?_pack_colHeights; try done.
    + by rewrite Hgx.
    + by rewrite Hgy.
  - rewrite update_children. by eapply numeric_child_transport.
  - unfold pass_increment. rewrite update_children. unfold update.
    rewrite Rgy, Hgy.
    rewrite <- !(map_map height (λ h, add h (gutterY st))).
    by rewrite Hh.
Qed.

Lemma reset_loop_zero fuel : ∀ columns i acc r,
  Forall (λ h, h = Fin 0) acc →
  reset_loop fuel columns i acc = Some r →
  Forall (λ h, h = Fin 0) r.
Proof.
  induction fuel as [|fuel IH]; intros columns i acc r Hacc H; [done|].
  cbn [reset_loop] in H. destruct (ltb (Fin i) columns).
  - eapply IH; [|exact H]. apply Forall_app. split; [done|]. by constructor.
  - by injection H as <-.
Qed.

Lemma _pack_total st :
  numeric_state st → Forall numeric_child (children st) →
  sum_num (elems (colHeights (_pack st)))
  = add (sum_num (elems (colHeights st))) (pass_increment st).
Proof.
  intros Hst Hcs. unfold pass_increment.
  pose proof (pack_each_numeric st _ Hst Hcs) as [_ P2 _ _].
  rewrite _pack_colHeights, (sum_num_fin _ P2).
  destruct Hst as [S1 S2 S3 S4].
  rewrite (sum_num_fin _ S2), (increment_fin _ _ S4 Hcs). simpl.
  rewrite pack_each_total; [done| |done]. by split.
Qed.

(** An item of height 0 with a vertical gutter of 0, in one column: a
    second [update] leaves the column heights and the items exactly as the
    first did. *)
Definition flat_state : plugin :=
  default (_setupGlobals 0 defaults scenario_dom)
          (init 2 0 (Some (mkOptions (Fin 20, Fin 0)))
                (mkDom (Fin 100) [mkElement (Fin 100) (Fin 0)])).

Lemma update_twice_same_when_nothing_to_add :
  length (children flat_state) = 1%nat
  ∧ elems (colHeights flat_state) = [Fin 0]
  ∧ colHeights (update (update flat_state)) = colHeights (update flat_state)
  ∧ children (update (update flat_state)) = children (update flat_state).
Proof. split_and!; reflexivity. Qed.

(** ** A measurement that is not a number *)

(** What the property [-1] of the array can hold: nothing, or [NaN]. *)
Definition stray (v : value) : Prop := v = VUndef ∨ v = VNum NaN.







(** * Further properties of the layout engine *)

(** ** When the search fails *)

Lemma nan_or_numbers l : NaN ∈ l ∨ Forall not_nan l.
Proof.
  induction l as [|a l [IH|IH]].
  - right. constructor.
  - left. by apply list_elem_of_further.
  - destruct a; try (right; by constructor). left. apply list_elem_of_here.
Qed.

(** [_fitMinIndex] answers [-1] exactly when there is no column or some
    column height is [NaN]; any other answer is an existing index. *)
Theorem fitMinIndex_fails_iff (a : array) :
  (_fitMinIndex a = -1 ↔ elems a = [] ∨ NaN ∈ elems a)
  ∧ (_fitMinIndex a ≠ -1 →
     ∃ m, elems a !! Z.to_nat (_fitMinIndex a) = Some m
          ∧ 0 ≤ _fitMinIndex a).
Proof.
  assert (_fitMinIndex a = -1 → elems a = [] ∨ NaN ∈ elems a) as Hfwd.
  { intros H. destruct (elems a) as [|h t] eqn:E; [by left|].
    destruct (nan_or_numbers (h :: t)) as [Hn|Hn]; [by right|].
    rewrite <- E in Hn.
    destruct (_fitMinIndex_first_min a) as (i & m & Hi & _); [by rewrite E|done|].
    lia. }
  split; [split; [done|]|].
  - intros [H|H]; [by apply _fitMinIndex_empty|by apply _fitMinIndex_nan].
  - intros Hne.
    destruct (elems a) as [|h t] eqn:E.
    { exfalso. apply Hne, _fitMinIndex_empty, E. }
    destruct (nan_or_numbers (h :: t)) as [Hn|Hn].
    { exfalso. apply Hne, _fitMinIndex_nan. by rewrite E. }
    rewrite <- E in *.
    destruct (_fitMinIndex_first_min a) as (i & m & Hi & Hm & _);
      [by rewrite E|done|].
    exists m. rewrite Hi, Nat2Z.id. split; [done|lia].
Qed.

(** ** Columns that fit *)

(** ** Registration *)

Definition registered (k : nat) (e : element) : child :=
  mkChild e (Z.of_nat k) (el_height e) (Fin 0) (VNum (Fin 0)).

Lemma each_child_children es : ∀ st (n : nat),
  children (each_child st (Z.of_nat n) es)
  = children st ++ imap (λ k, registered (n + k)) es.
Proof.
  induction es as [|e es IH]; intros st n.
  - simpl. by rewrite app_nil_r.
  - cbn [each_child]. replace (Z.of_nat n + 1) with (Z.of_nat (S n)) by lia.
    rewrite IH. cbn [_addNewChild set_children children].
    rewrite <- app_assoc. f_equal. rewrite imap_cons.
    cbn [app]. f_equal.
    + unfold registered. by rewrite Nat.add_0_r.
    + apply imap_ext. intros i x _. simpl. f_equal. lia.
Qed.

Lemma _parseChildren_children d st :
  children (_parseChildren d st) = imap registered (dom_children d).
Proof.
  unfold _parseChildren.
  pose proof (each_child_children (dom_children d) (set_children st []) 0)
    as E.
  change (Z.of_nat 0) with 0 in E. rewrite E.
  cbn [children set_children app]. apply imap_ext. intros i x _. done.
Qed.

(** [_parseChildren] drops whatever collection the plugin held and
    registers every child of the container in document order: the index is
    the position, the recorded height the measured one, the coordinates
    (0, 0).  Nothing else of the plugin changes, and parsing again gives
    the same plugin. *)
Theorem parseChildren_registers_in_order (d : dom) (st : plugin) :
  children (_parseChildren d st) = imap registered (dom_children d)
  ∧ colHeights (_parseChildren d st) = colHeights st
  ∧ gutterX (_parseChildren d st) = gutterX st
  ∧ gutterY (_parseChildren d st) = gutterY st
  ∧ colWidth (_parseChildren d st) = colWidth st
  ∧ containerWidth (_parseChildren d st) = containerWidth st
  ∧ colCount (_parseChildren d st) = colCount st
  ∧ trace (_parseChildren d st) = trace st
  ∧ children (_parseChildren d (_parseChildren d st))
    = children (_parseChildren d st).
Proof.
  pose proof (_parseChildren_children d) as Hc.
  unfold _parseChildren at 2 3 4 5 6 7 8.
  destruct (each_child_frame (dom_children d) (set_children st []) 0)
    as (-> & -> & -> & -> & -> & -> & _ & -> & _).
  split_and!; try done. by rewrite !Hc.
Qed.

(** ** One call of [update] *)

(** [update] packs every item once and then hands every item, with the
    coordinates just computed, to the sink once, both in registration
    order; it neither reorders nor drops items, keeps for each item its
    element, its index and the height recorded at registration, keeps the
    number of columns, and leaves the gutters, the cached column and
    container widths and the stored count alone. *)
Theorem update_packs_then_places (st : plugin) :
  trace (update st)
  = trace st ++ map (λ c, Packed (index c)) (children st)
    ++ map (λ c, Placed (index c) (x c) (y c)) (children (update st))
  ∧ map index (children (update st)) = map index (children st)
  ∧ map el (children (update st)) = map el (children st)
  ∧ map height (children (update st)) = map height (children st)
  ∧ length (elems (colHeights (update st))) = length (elems (colHeights st))
  ∧ gutterX (update st) = gutterX st ∧ gutterY (update st) = gutterY st
  ∧ colWidth (update st) = colWidth st
  ∧ containerWidth (update st) = containerWidth st
  ∧ colCount (update st) = colCount st.
Proof.
  rewrite update_children, update_colCount, update_containerWidth,
    update_columns.
  unfold update.
  destruct (render_frame (_pack st)) as (_ & _ & -> & -> & -> & _ & _ & _ & ->).
  destruct (_pack_frame st)
    as (-> & -> & -> & _ & _ & _ & -> & _ & -> & -> & ->).
  split_and!; try done. by rewrite app_assoc.
Qed.

(** ** What survives every event *)

(** The plugins that [init], followed by any run of resize notifications
    and calls of the public [update] and [render], can produce. *)
Inductive reachable (ident : Z) (user : option options) (d : dom)
  : plugin → Prop :=
| reach_init fuel st :
    init fuel ident user d = Some st → reachable ident user d st
| reach_resize fuel w st st' :
    reachable ident user d st →
    _updateContainerWidth fuel w st = Some st' →
    reachable ident user d st'
| reach_update st :
    reachable ident user d st → reachable ident user d (update st)
| reach_render st :
    reachable ident user d st → reachable ident user d (render st).

(** What never changes once the constructor has run. *)
Definition configured (ident : Z) (user : option options) (d : dom)
    (st : plugin) : Prop :=
  identifier st = ident
  ∧ gutterX st = fst (gutter (extend user))
  ∧ gutterY st = snd (gutter (extend user))
  ∧ colWidth st = _setColumnWidth d
  ∧ map el (children st) = dom_children d
  ∧ map height (children st) = map el_height (dom_children d)
  ∧ map index (children st) = imap (λ k _, Z.of_nat k) (dom_children d).

Lemma measured_configured ident user d :
  configured ident user d (measured ident user d).
Proof.
  unfold configured, measured. cbn [identifier gutterX gutterY colWidth children
                                   set_containerWidth].
  rewrite _parseChildren_children.
  unfold _parseChildren.
  destruct (each_child_frame (dom_children d)
              (set_children (_setupGlobals ident (extend user) d) []) 0)
    as (_ & -> & -> & -> & _ & _ & -> & _).
  split_and!; try done.
  - generalize (dom_children d). intros l.
    change registered with (λ k e, registered k e).
    assert (∀ f, (∀ k e, el (f k e) = e) → map el (imap f l) = l) as H.
    { induction l as [|e l IH]; intros f Hf; [done|].
      rewrite imap_cons. cbn [map]. rewrite Hf, IH; [done|]. intros k e'. apply Hf. }
    by apply H.
  - generalize (dom_children d). intros l.
    assert (∀ f, (∀ k e, height (f k e) = el_height e) →
                 map height (imap f l) = map el_height l) as H.
    { induction l as [|e l IH]; intros f Hf; [done|].
      rewrite imap_cons. cbn [map]. rewrite Hf, IH; [done|]. intros k e'. apply Hf. }
    by apply H.
  - generalize (dom_children d). intros l.
    assert (∀ (f : nat → element → child) (g : nat → element → Z),
              (∀ k e, index (f k e) = g k e) →
              map index (imap f l) = imap g l) as H.
    { induction l as [|e l IH]; intros f g Hf; [done|].
      rewrite !imap_cons. cbn [map]. rewrite Hf. f_equal. apply IH.
      intros k e'. apply Hf. }
    by apply H.
Qed.

Lemma configured_carry ident user d st st' :
  configured ident user d st →
  identifier st' = identifier st → gutterX st' = gutterX st →
  gutterY st' = gutterY st → colWidth st' = colWidth st →
  map el (children st') = map el (children st) →
  map height (children st') = map height (children st) →
  map index (children st') = map index (children st) →
  configured ident user d st'.
Proof.
  intros (H1 & H2 & H3 & H4 & H5 & H6 & H7) E1 E2 E3 E4 E5 E6 E7.
  unfold configured. rewrite E1, E2, E3, E4, E5, E6, E7. by split_and!.
Qed.

Lemma update_configured ident user d st :
  configured ident user d st → configured ident user d (update st).
Proof.
  intros H.
  destruct (render_frame (_pack st))
    as (Rc & _ & Rgx & Rgy & Rw & _ & _ & Ri & _).
  destruct (_pack_frame st)
    as (Pgx & Pgy & Pw & _ & _ & Pi & _ & _ & Pe & Px & Ph).
  unfold update. eapply configured_carry; [exact H|..]; congruence.
Qed.

Lemma _columnCountChanged_configured ident user d fuel st st' :
  configured ident user d st →
  _columnCountChanged fuel st = Some st' → configured ident user d st'.
Proof.
  intros Hc H. unfold _columnCountChanged, _resetColHeights in H.
  destruct (reset_loop fuel (_getColumnCount st) 0 []) as [r|]; [|done].
  injection H as <-. apply update_configured.
  eapply configured_carry; eauto.
Qed.

Lemma resize_configured ident user d fuel w st st' :
  configured ident user d st →
  _updateContainerWidth fuel w st = Some st' → configured ident user d st'.
Proof.
  intros Hc H. unfold _updateContainerWidth in H.
  destruct (strict_neq (VNum w) (containerWidth st)).
  - unfold _containerWidthChanged in H. destruct (strict_neq _ _).
    + eapply _columnCountChanged_configured; [|exact H].
      eapply configured_carry; eauto.
    + injection H as <-. eapply configured_carry; eauto.
  - by injection H as <-.
Qed.

Lemma render_Stable st : Stable st → Stable (render st).
Proof.
  intros [[w Hw] Hc].
  destruct (render_frame st) as (_ & Hh & _ & _ & _ & Hcw & Hcc & _).
  split; [exists w; congruence|]. by rewrite Hcc, Hh.
Qed.

Lemma update_Stable st : Stable st → Stable (update st).
Proof.
  intros [[w Hw] Hc]. split.
  - exists w. by rewrite update_containerWidth.
  - by rewrite update_colCount, update_columns.
Qed.

(** Whatever the resize notifications and the calls of [update] and
    [render] after [init]: a width is cached, the stored column count is
    the number of columns, and the identifier, the gutters, the column
    width and the registered items (elements, heights, order) are those of
    the construction. *)
Theorem reachable_invariant (ident : Z) (user : option options) (d : dom)
    (st : plugin) :
  reachable ident user d st →
  Stable st ∧ configured ident user d st.
Proof.
  induction 1 as [fuel st H|fuel w st st' _ [IHs IHc] H|st _ [IHs IHc]
                 |st _ [IHs IHc]].
  - split; [by eapply init_Stable|].
    rewrite init_unfold in H.
    eapply _columnCountChanged_configured; [|exact H].
    eapply configured_carry; [apply measured_configured|done..].
  - split; [by eapply resize_Stable|by eapply resize_configured].
  - split; [by apply update_Stable|by apply update_configured].
  - split; [by apply render_Stable|].
    destruct (render_frame st) as (Hc & _ & Hgx & Hgy & Hw & _ & _ & Hi & _).
    eapply configured_carry; eauto; by rewrite Hc.
Qed.

Lemma reachable_invariant_witness :
  Stable (update scenario_state)
  ∧ configured 0 None scenario_dom (update scenario_state).
Proof.
  apply (reachable_invariant 0 None scenario_dom (update scenario_state)).
  apply reach_update. apply (reach_init 0 None scenario_dom 4).
  vm_compute. reflexivity.
Defined.

(** ** When [init] returns *)

Lemma reset_loop_Some fuel : ∀ count i acc r,
  reset_loop fuel count i acc = Some r →
  count ≠ PInf
  ∧ r = acc ++ replicate (columns_of (add count (Fin (- i)))) (Fin 0).
Proof.
  induction fuel as [|fuel IH]; intros count i acc r H; [done|].
  cbn [reset_loop] in H. destruct (ltb (Fin i) count) eqn:E.
  - apply IH in H as [Hc ->]. split; [done|].
    rewrite <- app_assoc. f_equal.
    destruct count as [n| | |]; try done. simpl in *.
    apply Z.ltb_lt in E.
    replace (Z.to_nat (n + - i)) with (S (Z.to_nat (n + - (i + 1)))) by lia.
    done.
  - injection H as <-. destruct count as [n| | |]; try done; simpl in *.
    + apply Z.ltb_ge in E. split; [done|].
      replace (Z.to_nat (n + - i)) with 0%nat by lia. by rewrite app_nil_r.
    + split; [done|]. by rewrite app_nil_r.
    + split; [done|]. by rewrite app_nil_r.
Qed.

Lemma add_zero_r count : columns_of (add count (Fin (- 0))) = columns_of count.
Proof. destruct count; simpl; try done. f_equal. lia. Qed.

(** The plugin that the reset leaves for the first pass: the measured
    plugin with as many zeroed columns as the count asks for. *)
Definition zeroed (st : plugin) : plugin :=
  set_colCount
    (set_colHeights (set_colCount st (VNum (_getColumnCount st)))
       (array_of (replicate (columns_of (_getColumnCount st)) (Fin 0))))
    (VNum (Fin (Z.of_nat (columns_of (_getColumnCount st))))).

Lemma _columnCountChanged_Some fuel st v st' :
  _columnCountChanged fuel (set_colCount st v) = Some st' →
  _getColumnCount st ≠ PInf
  ∧ (columns_of (_getColumnCount st) < fuel)%nat
  ∧ st' = update (set_colCount
                    (set_colHeights (set_colCount st v)
                       (array_of (replicate (columns_of (_getColumnCount st))
                                            (Fin 0))))
                    (VNum (Fin (Z.of_nat (columns_of (_getColumnCount st)))))).
Proof.
  unfold _columnCountChanged, _resetColHeights.
  rewrite _getColumnCount_set_colCount.
  destruct (reset_loop fuel (_getColumnCount st) 0 []) as [r|] eqn:E; [|done].
  intros [= <-]. destruct (reset_loop_Some _ _ _ _ _ E) as [Hc ->].
  rewrite add_zero_r. cbn [app]. rewrite length_replicate.
  split_and!; [done| |done].
  destruct (decide (columns_of (_getColumnCount st) < fuel)%nat) as [|Hn]; [done|].
  exfalso. clear -E Hn Hc.
  assert (∀ f n i acc, (f ≤ Z.to_nat (n - i))%nat →
                       reset_loop f (Fin n) i acc = None) as Hnone.
  { induction f as [|f IH]; intros n i acc Hf; [done|].
    cbn [reset_loop ltb]. destruct (Z.ltb_spec i n); [|lia].
    apply IH. lia. }
  destruct (_getColumnCount st) as [n| | |]; simpl in *; try done.
  - rewrite Hnone in E; [done|]. rewrite Z.sub_0_r. lia.
  - destruct fuel; [done|lia].
  - destruct fuel; [done|lia].
Qed.

Lemma init_Some fuel ident user d st :
  init fuel ident user d = Some st →
  _getColumnCount (measured ident user d) ≠ PInf
  ∧ (columns_of (_getColumnCount (measured ident user d)) < fuel)%nat
  ∧ st = update (zeroed (measured ident user d)).
Proof. rewrite init_unfold. apply _columnCountChanged_Some. Qed.

(** With integer measurements, [init] returns (given fuel for the columns
    to build) unless [itemWidth + gutterX] is 0 while
    [containerWidth + gutterX] is positive; in that one case the count is
    [+Infinity] and the reset loop never ends. *)
Theorem init_returns_iff (ident : Z) (o : options) (d : dom) (cw iw gx : Z) :
  dom_width d = Fin cw →
  _setColumnWidth d = VNum (Fin iw) →
  fst (gutter o) = Fin gx →
  ((∃ fuel st, init fuel ident (Some o) d = Some st)
   ↔ ¬ (iw + gx = 0 ∧ 0 < cw + gx)).
Proof.
  intros Hcw Hiw Hgx.
  destruct (measured_fields ident (Some o) d)
    as (_ & Mgx & _ & Mw & Mcw & _).
  assert (_getColumnCount (measured ident (Some o) d)
          = computeColumnCount (Fin cw) (Fin iw) (Fin gx)) as Hcount.
  { rewrite _getColumnCount_eq, Mgx, Mw, Mcw. cbn [extend].
    by rewrite Hcw, Hgx, Hiw. }
  assert (computeColumnCount (Fin cw) (Fin iw) (Fin gx) = PInf
          ↔ iw + gx = 0 ∧ 0 < cw + gx) as Hinf.
  { unfold computeColumnCount, _getColumnCount. simpl.
    destruct (Z.eqb_spec (iw + gx) 0) as [E|E].
    - destruct (cw + gx) eqn:Es; simpl; split; try done; try lia.
      all: intros [_ ?]; lia.
    - split; [done|]. intros [? _]. lia. }
  split.
  - intros (fuel & st & H) Hbad.
    apply init_Some in H as [Hc _]. apply Hc. rewrite Hcount. by apply Hinf.
  - intros Hok.
    exists (S (columns_of (_getColumnCount (measured ident (Some o) d)))).
    eexists. apply init_returns; [|lia].
    rewrite Hcount. intros E. by apply Hok, Hinf.
Qed.

Lemma init_returns_iff_witness :
  (∃ fuel st, init fuel 0 (Some defaults) scenario_dom = Some st)
  ↔ ¬ (100 + 20 = 0 ∧ 0 < 340 + 20).
Proof.
  apply (init_returns_iff 0 defaults scenario_dom 340 100 20); reflexivity.
Defined.

(** ** The geometry of one pass *)

(** The column heights of a numeric plugin, as integers. *)
Definition zheights (st : plugin) : list Z :=
  fin_val <$> elems (colHeights st).

Lemma numeric_step st c :
  numeric_state st → numeric_child c →
  ∃ (i : nat) (m w h gx gy : Z),
    _fitMinIndex (colHeights st) = Z.of_nat i
    ∧ zheights st !! i = Some m
    ∧ (∀ j z, zheights st !! j = Some z → m ≤ z)
    ∧ el_width (el c) = Fin w ∧ height c = Fin h
    ∧ gutterX st = Fin gx ∧ gutterY st = Fin gy
    ∧ zheights (_packChild st c).1 = <[i := m + (h + gy)]> (zheights st)
    ∧ (_packChild st c).2
      = mkChild (el c) (index c) (height c)
                (Fin (Z.of_nat i * w + Z.of_nat i * gx)) (VNum (Fin m)).
Proof.
  intros Hst Hc.
  destruct (_packChild_numeric st c Hst Hc)
    as (i & m & w & h & gx & gy & Hi & Hm & Hlow & _ & Hw & Hh & Hgx & Hgy & Hstep).
  exists i, m, w, h, gx, gy. rewrite Hstep. unfold zheights.
  split_and!; try done.
  - by rewrite list_lookup_fmap, Hm.
  - intros j z [v [-> Hv]]%list_lookup_fmap_Some.
    specialize (Hlow j v Hv).
    destruct Hst as [_ Hfin _ _].
    eapply Forall_lookup_1 in Hfin; [|exact Hv].
    apply is_fin_inv in Hfin as [vz ->]. exact Hlow.
  - cbn. by rewrite list_fmap_insert.
Qed.

Lemma pack_each_one st c :
  pack_each st [c] = ((_packChild st c).1, [(_packChild st c).2]).
Proof. by rewrite pack_each_cons. Qed.

Lemma before_child_S st k c :
  children st !! k = Some c →
  before_child st (S k) = (_packChild (before_child st k) c).1.
Proof.
  intros H. unfold before_child.
  by rewrite (take_S_r _ _ _ H), pack_each_app, pack_each_one.
Qed.

Lemma before_child_later st k l :
  (k ≤ l)%nat →
  before_child st l
  = (pack_each (before_child st k) (drop k (take l (children st)))).1.
Proof.
  intros Hkl. unfold before_child.
  rewrite <- (take_drop k (take l (children st))) at 1.
  rewrite take_take, Nat.min_l by done.
  by rewrite pack_each_app.
Qed.

Lemma before_child_numeric st k :
  numeric_state st → Forall numeric_child (children st) →
  numeric_state (before_child st k).
Proof. intros Hst Hcs. apply pack_each_numeric; [done|]. by apply Forall_take. Qed.

Lemma before_child_frame st k :
  gutterX (before_child st k) = gutterX st
  ∧ gutterY (before_child st k) = gutterY st
  ∧ length (zheights (before_child st k)) = length (zheights st).
Proof.
  unfold before_child, zheights. rewrite !length_fmap.
  destruct (pack_each_frame st (take k (children st)))
    as (-> & -> & _ & _ & _ & _ & _ & _ & -> & _).
  done.
Qed.

Lemma packed_child st k c :
  children st !! k = Some c →
  children (_pack st) !! k = Some (_packChild (before_child st k) c).2.
Proof. intros H. rewrite _pack_children. by apply pack_each_lookup. Qed.

(** Items whose height plus the vertical gutter is not negative never
    lower a column. *)
Definition grows (gy : num) (c : child) : Prop :=
  0 ≤ fin_val (height c) + fin_val gy.

Lemma pack_each_monotone cs : ∀ st,
  numeric_state st → Forall numeric_child cs →
  Forall (grows (gutterY st)) cs →
  ∀ j z, zheights st !! j = Some z →
         ∃ z', zheights (pack_each st cs).1 !! j = Some z' ∧ z ≤ z'.
Proof.
  induction cs as [|c cs IH]; intros st Hst Hcs Hg j z Hz.
  - exists z. split; [done|lia].
  - apply Forall_cons in Hcs as [Hc Hcs]. apply Forall_cons in Hg as [Hgc Hg].
    rewrite pack_each_cons. cbn [fst].
    destruct (numeric_step st c Hst Hc)
      as (i & m & w & h & gx & gy & _ & Hm & _ & _ & Hh & _ & Hgy & Hz1 & _).
    destruct (_packChild_frame st c) as (_ & Gy & _).
    unfold grows in Hgc. rewrite Hh, Hgy in Hgc. simpl in Hgc.
    assert (∃ z1, zheights (_packChild st c).1 !! j = Some z1 ∧ z ≤ z1)
      as (z1 & Hz1' & Hle).
    { rewrite Hz1. destruct (decide (i = j)) as [->|Hne].
      - exists (m + (h + gy)). split.
        + apply list_lookup_insert_eq. by eapply lookup_lt_Some.
        + rewrite Hm in Hz. injection Hz as <-. lia.
      - exists z. split; [by rewrite list_lookup_insert_ne|lia]. }
    destruct (IH (_packChild st c).1) with (j := j) (z := z1)
      as (z' & Hz' & Hle'); try done.
    + by apply _packChild_numeric_state.
    + exists z'. split; [done|lia].
Qed.

(** Two placed items keep clear of each other, for items of width [w] and
    gutters [gx], [gy]: in the same column the later one starts at least
    the earlier one's height and a vertical gutter lower, and in different
    columns they are a width and a horizontal gutter apart. *)
Definition apart (w gx gy : Z) (first later : child) : Prop :=
  ∃ x1 y1 h1 x2 y2,
    x first = Fin x1 ∧ y first = VNum (Fin y1) ∧ height first = Fin h1
    ∧ x later = Fin x2 ∧ y later = VNum (Fin y2)
    ∧ ((x1 = x2 ∧ y1 + h1 + gy ≤ y2)
       ∨ x1 + w + gx ≤ x2 ∨ x2 + w + gx ≤ x1).

Lemma pack_apart_at
    (st : plugin) (w gx gy : Z) (k l : nat) (ck0 cl0 : child) :
  numeric_state st →
  Forall numeric_child (children st) →
  gutterX st = Fin gx → gutterY st = Fin gy →
  Forall (λ c, el_width (el c) = Fin w) (children st) →
  Forall (grows (gutterY st)) (children st) →
  0 < w + gx →
  (k < l)%nat →
  children st !! k = Some ck0 →
  children st !! l = Some cl0 →
  apart w gx gy (_packChild (before_child st k) ck0).2
                (_packChild (before_child st l) cl0).2.
Proof.
  intros Hst Hcs Hgx Hgy Hw Hg Hpos Hkl Hk0 Hl0.
  pose proof (before_child_numeric st k Hst Hcs) as Nk.
  pose proof (before_child_numeric st l Hst Hcs) as Nl.
  assert (numeric_child ck0) as Hck by (eapply Forall_lookup_1; eauto).
  assert (numeric_child cl0) as Hcl by (eapply Forall_lookup_1; eauto).
  destruct (numeric_step _ ck0 Nk Hck)
    as (i & m & w1 & h & gx1 & gy1 & _ & Hm & _ & Hw1 & Hh & Hgx1 & Hgy1 & Hz & ->).
  destruct (numeric_step _ cl0 Nl Hcl)
    as (i' & m' & w2 & h' & gx2 & gy2 & _ & Hm' & _ & Hw2 & Hh' & Hgx2 & _ & _ & ->).
  destruct (before_child_frame st k) as (Fx & Fy & _).
  destruct (before_child_frame st l) as (Fx' & _ & _).
  rewrite Fx, Hgx in Hgx1. injection Hgx1 as <-.
  rewrite Fx', Hgx in Hgx2. injection Hgx2 as <-.
  rewrite Fy, Hgy in Hgy1. injection Hgy1 as <-.
  eapply Forall_lookup_1 in Hw as Hwk; [|exact Hk0]. cbn beta in Hwk.
  rewrite Hwk in Hw1. injection Hw1 as <-.
  eapply Forall_lookup_1 in Hw as Hwl; [|exact Hl0]. cbn beta in Hwl.
  rewrite Hwl in Hw2. injection Hw2 as <-.
  exists (Z.of_nat i * w + Z.of_nat i * gx), m, h,
         (Z.of_nat i' * w + Z.of_nat i' * gx), m'.
  split_and!; try done.
  destruct (decide (i = i')) as [<-|Hne].
  - left. split; [done|].
    rewrite <- (before_child_S st k ck0 Hk0) in Hz.
    assert (zheights (before_child st (S k)) !! i = Some (m + (h + gy))) as Hi.
    { rewrite Hz. apply list_lookup_insert_eq. by eapply lookup_lt_Some. }
    rewrite (before_child_later st (S k) l) in Hm' by lia.
    destruct (pack_each_monotone
                (drop (S k) (take l (children st))) (before_child st (S k)))
      with (j := i) (z := m + (h + gy)) as (z' & Hz' & Hle); try done.
    + by apply before_child_numeric.
    + by apply Forall_drop, Forall_take.
    + destruct (before_child_frame st (S k)) as (_ & -> & _).
      by apply Forall_drop, Forall_take.
    + rewrite Hz' in Hm'. injection Hm' as <-. lia.
  - right. destruct (decide (i < i')%nat); [left|right]; nia.
Qed.

(** The greedy choice keeps the columns level: the column heights never
    differ by more than the largest amount one item adds. *)
Definition level (M : Z) (heights : list Z) : Prop :=
  ∀ a b za zb, heights !! a = Some za → heights !! b = Some zb → za - zb ≤ M.

Definition adds_at_most (M : Z) (gy : num) (c : child) : Prop :=
  0 ≤ fin_val (height c) + fin_val gy ≤ M.

Lemma pack_each_level M cs : ∀ st,
  numeric_state st → Forall numeric_child cs →
  Forall (adds_at_most M (gutterY st)) cs →
  level M (zheights st) →
  level M (zheights (pack_each st cs).1).
Proof.
  induction cs as [|c cs IH]; intros st Hst Hcs Hm Hlev; [done|].
  apply Forall_cons in Hcs as [Hc Hcs]. apply Forall_cons in Hm as [Hmc Hm].
  rewrite pack_each_cons. cbn [fst].
  destruct (numeric_step st c Hst Hc)
    as (i & m & w & h & gx & gy & _ & Hi & Hlow & _ & Hh & _ & Hgy & Hz & _).
  unfold adds_at_most in Hmc. rewrite Hh, Hgy in Hmc. simpl in Hmc.
  apply IH; try done.
  - by apply _packChild_numeric_state.
  - rewrite Hz. intros a b za zb Ha Hb.
    apply list_lookup_insert_Some in Ha as [(<- & <- & _)|[Hai Ha]];
      apply list_lookup_insert_Some in Hb as [(Hib & <- & _)|[Hbi Hb]].
    + lia.
    + specialize (Hlow _ _ Hb). lia.
    + specialize (Hlev _ _ _ _ Ha Hi). lia.
    + exact (Hlev _ _ _ _ Ha Hb).
Qed.

Lemma zheights_lookup st j z :
  Forall is_fin (elems (colHeights st)) →
  (elems (colHeights st) !! j = Some (Fin z) ↔ zheights st !! j = Some z).
Proof.
  intros Hfin. unfold zheights. rewrite list_lookup_fmap. split.
  - by intros ->.
  - destruct (elems (colHeights st) !! j) as [v|] eqn:E; [|done].
    eapply Forall_lookup_1 in Hfin; [|exact E].
    apply is_fin_inv in Hfin as [vz ->]. by intros [= ->].
Qed.

Lemma _getColumnCount_ext st st' :
  containerWidth st' = containerWidth st → colWidth st' = colWidth st →
  gutterX st' = gutterX st → _getColumnCount st' = _getColumnCount st.
Proof. intros E1 E2 E3. unfold _getColumnCount. by rewrite E1, E2, E3. Qed.

(** ** No column at all *)

(** While the search fails every item is sent to the key [-1]: the
    columns stay as they are, the first item reads what is stored there
    and the others the [NaN] left by the item before. *)
Lemma pack_each_failing cs : ∀ st,
  _fitMinIndex (colHeights st) = -1 →
  stray (prop_m1 (colHeights st)) →
  elems (colHeights (pack_each st cs).1) = elems (colHeights st)
  ∧ ∀ k c', (pack_each st cs).2 !! k = Some c' →
      x c' = add (mul (Fin (-1)) (el_width (el c')))
                 (mul (Fin (-1)) (gutterX st))
      ∧ y c' = match k with
               | O => prop_m1 (colHeights st)
               | S _ => VNum NaN
               end.
Proof.
  induction cs as [|c cs IH]; intros st Hi Hp; [by split|].
  rewrite pack_each_cons. cbn [fst snd].
  pose proof (_packChild_m1 st c Hi) as Hstep.
  destruct (_packChild_frame st c) as (Gx & _).
  assert (elems (colHeights (_packChild st c).1) = elems (colHeights st)) as He
    by (by rewrite Hstep).
  assert (prop_m1 (colHeights (_packChild st c).1) = VNum NaN) as Hp'.
  { rewrite Hstep. cbn. by destruct Hp as [-> | ->]. }
  destruct (IH (_packChild st c).1) as [E Hall].
  - unfold _fitMinIndex in *. by rewrite He.
  - right. exact Hp'.
  - split; [by rewrite E|].
    intros [|k] c' Hk.
    + assert (c' = (_packChild st c).2) as ->.
      { change (Some (_packChild st c).2 = Some c') in Hk. congruence. }
      rewrite Hstep. by split.
    + change ((pack_each (_packChild st c).1 cs).2 !! k = Some c') in Hk.
      destruct (Hall k c' Hk) as (Hx & Hy).
      split; [by rewrite <- Gx|].
      destruct k; [by rewrite <- Hp'|done].
Qed.

(** ** An empty container *)

(** With no item in the container nothing is packed and nothing is handed
    to the sink: whenever [init] returns, the collection and the trace are
    empty and every column it built is at height 0. *)
Theorem empty_container_is_a_noop
    (fuel : nat) (ident : Z) (user : option options) (d : dom) (st : plugin) :
  dom_children d = [] →
  init fuel ident user d = Some st →
  children st = [] ∧ trace st = []
  ∧ Forall (λ h, h = Fin 0) (elems (colHeights st)).
Proof.
  intros Hd H. apply init_Some in H as (_ & _ & ->).
  assert (children (zeroed (measured ident user d)) = []) as Hc.
  { apply nil_length_inv.
    destruct (measured_fields ident user d) as (_ & _ & _ & _ & _ & _ & _ & Hl).
    cbn [zeroed children set_colCount set_colHeights]. by rewrite Hl, Hd. }
  assert (trace (zeroed (measured ident user d)) = []) as Ht.
  { destruct (measured_fields ident user d) as (_ & _ & _ & _ & _ & _ & Hm & _).
    exact Hm. }
  unfold update, render, _pack. rewrite Hc. cbn [pack_each].
  cbn [children set_children foldl colHeights trace]. rewrite Ht.
  split_and!; [done|done|]. cbn. by apply Forall_replicate.
Qed.

Lemma empty_container_is_a_noop_witness :
  children (update (zeroed (measured 0 None (mkDom (Fin 340) [])))) = []
  ∧ trace (update (zeroed (measured 0 None (mkDom (Fin 340) [])))) = []
  ∧ Forall (λ h, h = Fin 0)
           (elems (colHeights
                     (update (zeroed (measured 0 None (mkDom (Fin 340) [])))))).
Proof.
  apply (empty_container_is_a_noop 1 0 None (mkDom (Fin 340) [])).
  - reflexivity.
  - vm_compute. reflexivity.
Defined.

(** ** The layout after resizing *)

(** The plugins that [init] followed by resize notifications alone can
    produce, for items whose measured width is the same at every pack
    (the width an [element] holds). *)
Inductive resized (ident : Z) (user : option options) (d : dom)
  : plugin → Prop :=
| resized_init fuel st :
    init fuel ident user d = Some st → resized ident user d st
| resized_step fuel w st st' :
    resized ident user d st →
    _updateContainerWidth fuel w st = Some st' →
    resized ident user d st'.

(** What [init] builds for the same items in a container of width [w]. *)
Definition fresh_at (ident : Z) (user : option options) (d : dom) (w : num)
  : plugin :=
  update (zeroed (measured ident user (mkDom w (dom_children d)))).

Definition same_layout (a b : plugin) : Prop :=
  children a = children b ∧ colHeights a = colHeights b
  ∧ colCount a = colCount b.

Lemma pack_each_same cs1 : ∀ cs2 st1 st2,
  map el cs1 = map el cs2 → map index cs1 = map index cs2 →
  map height cs1 = map height cs2 →
  colHeights st1 = colHeights st2 →
  gutterX st1 = gutterX st2 → gutterY st1 = gutterY st2 →
  (pack_each st1 cs1).2 = (pack_each st2 cs2).2
  ∧ colHeights (pack_each st1 cs1).1 = colHeights (pack_each st2 cs2).1.
Proof.
  induction cs1 as [|c1 cs1 IH]; intros [|c2 cs2] st1 st2 He Hi Hh Hc Hx Hy;
    try discriminate; [done|].
  cbn [map] in He, Hi, Hh.
  injection He as He1 He. injection Hi as Hi1 Hi. injection Hh as Hh1 Hh.
  rewrite !pack_each_cons. cbn [fst snd].
  assert ((_packChild st1 c1).2 = (_packChild st2 c2).2
          ∧ colHeights (_packChild st1 c1).1 = colHeights (_packChild st2 c2).1)
    as [Hco Hst].
  { unfold _packChild. cbn. by rewrite Hc, Hx, Hy, He1, Hi1, Hh1. }
  destruct (_packChild_frame st1 c1) as (Gx1 & Gy1 & _).
  destruct (_packChild_frame st2 c2) as (Gx2 & Gy2 & _).
  destruct (IH cs2 (_packChild st1 c1).1 (_packChild st2 c2).1) as [E1 E2];
    try done; try congruence.
  by rewrite Hco, E1.
Qed.

Lemma update_same_layout s1 s2 :
  map el (children s1) = map el (children s2) →
  map index (children s1) = map index (children s2) →
  map height (children s1) = map height (children s2) →
  colHeights s1 = colHeights s2 →
  gutterX s1 = gutterX s2 → gutterY s1 = gutterY s2 →
  colCount s1 = colCount s2 →
  same_layout (update s1) (update s2).
Proof.
  intros He Hi Hh Hc Hx Hy Hn.
  destruct (pack_each_same _ _ s1 s2 He Hi Hh Hc Hx Hy) as [E1 E2].
  unfold same_layout.
  rewrite !update_children, !update_colHeights, !update_colCount,
    !_pack_children, !_pack_colHeights.
  by rewrite E1, E2, Hn.
Qed.

Lemma measured_at_fields ident user d w :
  configured ident user d (measured ident user (mkDom w (dom_children d)))
  ∧ ∀ st, configured ident user d st → containerWidth st = VNum w →
          _getColumnCount st
          = _getColumnCount (measured ident user (mkDom w (dom_children d))).
Proof.
  pose proof (measured_configured ident user (mkDom w (dom_children d))) as Hc.
  split; [exact Hc|].
  intros st (_ & Hgx & _ & Hw & _) Hcw.
  destruct Hc as (_ & Mgx & _ & Mw & _).
  apply _getColumnCount_ext.
  - by rewrite Hcw.
  - rewrite Hw, Mw. reflexivity.
  - by rewrite Hgx, Mgx.
Qed.

Lemma zeroed_same_layout ident user d st (v : value) (w : num) :
  configured ident user d st →
  containerWidth st = VNum w →
  same_layout
    (update (set_colCount
               (set_colHeights (set_colCount st v)
                  (array_of (replicate (columns_of (_getColumnCount st))
                                       (Fin 0))))
               (VNum (Fin (Z.of_nat (columns_of (_getColumnCount st)))))))
    (fresh_at ident user d w).
Proof.
  intros Hc Hcw.
  destruct (measured_at_fields ident user d w) as (Mc & Mcount).
  rewrite (Mcount st Hc Hcw).
  destruct Hc as (_ & Hgx & Hgy & _ & He & Hh & Hi).
  destruct Mc as (_ & Mgx & Mgy & _ & Me & Mh & Mi).
  unfold fresh_at. apply update_same_layout; cbn [children colHeights gutterX gutterY colCount zeroed set_colCount set_colHeights]; congruence.
Qed.

(** Two fresh layouts of the same items agree when the widths give the
    same number of columns. *)
Lemma fresh_at_same_columns ident user d w0 w :
  columns_of (_getColumnCount (measured ident user (mkDom w0 (dom_children d))))
  = columns_of (_getColumnCount (measured ident user (mkDom w (dom_children d)))) →
  same_layout (fresh_at ident user d w0) (fresh_at ident user d w).
Proof.
  intros E. unfold fresh_at. apply update_same_layout; try reflexivity.
  - cbn. by rewrite E.
  - cbn. by rewrite E.
Qed.

Lemma resized_canonical ident user d st :
  resized ident user d st →
  Stable st ∧ configured ident user d st
  ∧ ∀ w, containerWidth st = VNum w →
         _getColumnCount (measured ident user (mkDom w (dom_children d))) ≠ PInf
         ∧ same_layout st (fresh_at ident user d w).
Proof.
  induction 1 as [fuel st H|fuel w' st st' _ (Hs & Hc & IH) H].
  - pose proof (init_Stable _ _ _ _ _ H) as Hs.
    pose proof H as H0. rewrite init_unfold in H0.
    assert (configured ident user d st) as Hc.
    { eapply _columnCountChanged_configured; [|exact H0].
      eapply configured_carry; [apply measured_configured|done..]. }
    split_and!; [done|done|].
    apply init_Some in H as (Hfin & _ & ->).
    intros w Hw. rewrite update_containerWidth in Hw. cbn in Hw.
    injection Hw as <-. destruct d as [dw dc]. by split.
  - pose proof (resize_Stable _ _ _ _ Hs H) as Hs'.
    pose proof (resize_configured _ _ _ _ _ _ _ Hc H) as Hc'.
    split_and!; [done|done|].
    unfold _updateContainerWidth in H.
    destruct (strict_neq (VNum w') (containerWidth st)); [|by injection H as <-].
    unfold _containerWidthChanged in H.
    set (s := set_containerWidth st (VNum w')) in *.
    assert (configured ident user d s) as Hcs
      by (eapply configured_carry; [exact Hc|done..]).
    destruct (measured_at_fields ident user d w') as (_ & Mcount).
    specialize (Mcount s Hcs eq_refl).
    destruct (strict_neq (VNum (_getColumnCount s)) (colCount s)) eqn:E.
    + pose proof H as H1.
      apply _columnCountChanged_Some in H1 as (Hfin & _ & ->).
      intros w Hw. rewrite update_containerWidth in Hw. cbn in Hw.
      injection Hw as <-. split.
      * by rewrite <- Mcount.
      * by apply zeroed_same_layout.
    + injection H as <-. intros w Hw. cbn in Hw. injection Hw as <-.
      destruct Hs as [[w0 Hw0] _].
      destruct (IH w0 Hw0) as (Hfin0 & Hch & Hhe & Hco).
      unfold fresh_at in Hco. rewrite update_colCount in Hco.
      cbn [zeroed colCount set_colCount] in Hco.
      unfold strict_neq in E. apply negb_false_iff in E.
      cbn [colCount s set_containerWidth] in E. rewrite Hco in E.
      apply strict_eq_num in E as [E _].
      fold s in E. rewrite Mcount in E.
      split; [by rewrite E|].
      destruct (fresh_at_same_columns ident user d w0 w') as (Fch & Fhe & Fco).
      { rewrite E. simpl. by rewrite Nat2Z.id. }
      split_and!; cbn [children colHeights colCount s set_containerWidth].
      * by rewrite Hch.
      * by rewrite Hhe.
      * rewrite <- Fco. unfold fresh_at. rewrite update_colCount.
        exact Hco.
Qed.

(** The layout does not remember earlier container widths, for items
    that keep their measured width.  After [init] and any run of resize
    notifications during which every item measures the same width at
    every pack, the items with their coordinates, the column heights and
    the stored count are exactly what [init] builds for the same items in
    a container of the width now cached, and that [init] returns. *)
Theorem layout_depends_on_last_width_only
    (ident : Z) (user : option options) (d : dom) (st : plugin) (w : num) :
  resized ident user d st →
  containerWidth st = VNum w →
  ∃ fuel st0,
    init fuel ident user (mkDom w (dom_children d)) = Some st0
    ∧ children st = children st0
    ∧ colHeights st = colHeights st0
    ∧ colCount st = colCount st0.
Proof.
  intros Hr Hw.
  destruct (resized_canonical _ _ _ _ Hr) as (_ & _ & Hcanon).
  destruct (Hcanon w Hw) as (Hfin & Hch & Hhe & Hco).
  exists (S (columns_of (_getColumnCount
                           (measured ident user (mkDom w (dom_children d)))))),
         (fresh_at ident user d w).
  split_and!; try done.
  apply init_returns; [done|lia].
Qed.

Definition scenario_resized : plugin :=
  default scenario_state
    (_updateContainerWidth 5 (Fin 220)
       (default scenario_state
          (_updateContainerWidth 5 (Fin 470) scenario_state))).

Lemma layout_depends_on_last_width_only_witness :
  ∃ fuel st0,
    init fuel 0 None (mkDom (Fin 220) (dom_children scenario_dom)) = Some st0
    ∧ children scenario_resized = children st0
    ∧ colHeights scenario_resized = colHeights st0
    ∧ colCount scenario_resized = colCount st0.
Proof.
  apply (layout_depends_on_last_width_only 0 None scenario_dom
           scenario_resized (Fin 220)).
  - apply (resized_step 0 None scenario_dom 5 (Fin 220)
             (default scenario_state
                (_updateContainerWidth 5 (Fin 470) scenario_state))).
    + apply (resized_step 0 None scenario_dom 5 (Fin 470) scenario_state).
      * apply (resized_init 0 None scenario_dom 4). vm_compute. reflexivity.
      * vm_compute. reflexivity.
    + vm_compute. reflexivity.
  - vm_compute. reflexivity.
Defined.

(** * The jQuery entry point *)

(** [$.fn.shapeshift], seen from one jQuery object.  The callbacks handed
    to [this.each] are arrow functions, so inside them [this] is still the
    jQuery object the plugin was called on: the instance is stored on
    that object, under the key [plugin_shapeshift], and the body runs once
    for every matched element.  A [page] records the number of matched
    elements, the instances constructed so far (each one has bound its
    resize handler to the window in [init], and nothing ever unbinds it),
    which of them the key holds, and what was written to the console. *)

Inductive argument : Type :=
| ArgUndefined
| ArgObject (user : option options)
| ArgString (s : string)
| ArgOther.

Record page : Type := mkPage {
  matched : nat;
  instances : list plugin;
  stored : option nat;
  console : list string
}.

(** [this.each(callback)] for a callback that never returns [false]. *)
Fixpoint each (n : nat) (callback : page → option page) (pg : page)
  : option page :=
  match n with
  | O => Some pg
  | S n' =>
      match callback pg with
      | None => None
      | Some pg' => each n' callback pg'
      end
  end.

(** [options === undefined || typeof options === 'object']: the options
    the constructor is then given. *)
Definition instantiation (a : argument) : option (option options) :=
  match a with
  | ArgUndefined => Some None
  | ArgObject user => Some user
  | _ => None
  end.

(** [if (!$.data(this, scoped_name)) $.data(this, scoped_name,
    new Plugin(this, options))]. *)
Definition instantiate (fuel : nat) (ident : Z) (d : dom)
    (user : option options) (pg : page) : option page :=
  match stored pg with
  | Some _ => Some pg
  | None =>
      match init fuel ident user d with
      | None => None
      | Some st =>
          Some (mkPage (matched pg) (instances pg ++ [st])
                       (Some (length (instances pg))) (console pg))
      end
  end.

(** [options[0] === '_']; the first character of the empty string is
    [undefined]. *)
Definition starts_with_underscore (s : string) : bool :=
  String.eqb (String.substring 0 1 s) "_".

(** [typeof options === 'string' && options[0] !== '_' &&
    options !== 'init']. *)
Definition is_public_function (a : argument) : bool :=
  match a with
  | ArgString s => negb (starts_with_underscore s) && negb (String.eqb s "init")
  | _ => false
  end.

Definition destroy_message : string :=
  "Clean up, clean up. Everybody, everywhere.".

(** [instance[name].apply(instance, ...)] for a public name.  Of the
    functions an instance answers to under such a name, [update],
    [render] and [destroy] are the plugin's; the others are inherited
    from [Object.prototype] and leave the plugin as it is, like a name
    that is no function at all. *)
Definition invoke (name : string) (i : nat) (st : plugin) (pg : page) : page :=
  if String.eqb name "update"
  then mkPage (matched pg) (<[i := update st]> (instances pg)) (stored pg)
              (console pg)
  else if String.eqb name "render"
  then mkPage (matched pg) (<[i := render st]> (instances pg)) (stored pg)
              (console pg)
  else if String.eqb name "destroy"
  then mkPage (matched pg) (instances pg) (stored pg)
              (console pg ++ [destroy_message])
  else pg.

(** The body of the second [this.each]. *)
Definition call_method (name : string) (pg : page) : option page :=
  let pg1 :=
    match stored pg with
    | Some i =>
        match instances pg !! i with
        | Some st => invoke name i st pg
        | None => pg
        end
    | None => pg
    end in
  Some (if String.eqb name "destroy"
        then mkPage (matched pg1) (instances pg1) None (console pg1)
        else pg1).

(** [$.fn.shapeshift]; [d] is the container as the constructor would
    measure it and [ident] the identifier it would draw. *)
Definition shapeshift (fuel : nat) (ident : Z) (d : dom) (a : argument)
    (pg : page) : option page :=
  match instantiation a with
  | Some user => each (matched pg) (instantiate fuel ident d user) pg
  | None =>
      if is_public_function a
      then match a with
           | ArgString name => each (matched pg) (call_method name) pg
           | _ => Some pg
           end
      else Some pg
  end.

(** A resize notification: every handler bound so far measures the
    container and runs [_updateContainerWidth] on its own instance. *)
Fixpoint resize_all (fuel : nat) (w : num) (l : list plugin)
  : option (list plugin) :=
  match l with
  | [] => Some []
  | st :: l' =>
      match _updateContainerWidth fuel w st with
      | None => None
      | Some st' =>
          match resize_all fuel w l' with
          | None => None
          | Some l'' => Some (st' :: l'')
          end
      end
  end.

Definition window_resize (fuel : nat) (w : num) (pg : page) : option page :=
  match resize_all fuel w (instances pg) with
  | None => None
  | Some l => Some (mkPage (matched pg) l (stored pg) (console pg))
  end.

Lemma each_fixed n callback pg :
  callback pg = Some pg → each n callback pg = Some pg.
Proof. intros H. induction n as [|n IH]; [done|]. simpl. by rewrite H. Qed.

Lemma each_update n : ∀ m l i c st,
  l !! i = Some st →
  each n (call_method "update") (mkPage m l (Some i) c)
  = Some (mkPage m (<[i := Nat.iter n update st]> l) (Some i) c).
Proof.
  induction n as [|n IH]; intros m l i c st Hl.
  - simpl. by rewrite list_insert_id.
  - cbn [each]. unfold call_method at 1. cbn [stored instances].
    rewrite Hl. unfold invoke. cbn [String.eqb Ascii.eqb Bool.eqb].
    cbn [matched instances stored console].
    rewrite (IH m _ i c (update st)).
    + by rewrite list_insert_insert_eq, Nat.iter_succ_r.
    + apply list_lookup_insert_eq. by eapply lookup_lt_Some.
Qed.

(** The command [update] reaches the stored instance once for every
    matched element: on an object matching [n] elements the instance is
    packed and rendered [n] times in a row. *)
Theorem update_runs_once_per_matched_element
    (fuel : nat) (ident : Z) (d : dom) (pg : page) (i : nat) (st : plugin) :
  stored pg = Some i →
  instances pg !! i = Some st →
  shapeshift fuel ident d (ArgString "update") pg
  = Some (mkPage (matched pg)
                 (<[i := Nat.iter (matched pg) update st]> (instances pg))
                 (stored pg) (console pg)).
Proof.
  intros Hs Hi. unfold shapeshift. cbn [instantiation is_public_function].
  replace (negb (starts_with_underscore "update") && negb (String.eqb "update" "init"))
    with true by reflexivity.
  destruct pg as [m l s c]. cbn [matched instances stored console] in *.
  subst s. by apply each_update.
Qed.

Lemma update_runs_once_per_matched_element_witness :
  shapeshift 0 0 scenario_dom (ArgString "update")
             (mkPage 2 [scenario_state] (Some 0%nat) [])
  = Some (mkPage 2
                 (<[0%nat := Nat.iter 2 update scenario_state]> [scenario_state])
                 (Some 0%nat) []).
Proof.
  apply (update_runs_once_per_matched_element 0 0 scenario_dom
           (mkPage 2 [scenario_state] (Some 0%nat) []) 0 scenario_state);
    reflexivity.
Defined.

Lemma resize_all_lookup fuel w l : ∀ l' i st,
  resize_all fuel w l = Some l' → l !! i = Some st →
  ∃ st', _updateContainerWidth fuel w st = Some st' ∧ l' !! i = Some st'.
Proof.
  induction l as [|s0 l IH]; intros l' i st H Hi; [done|].
  cbn [resize_all] in H.
  destruct (_updateContainerWidth fuel w s0) as [s0'|] eqn:E0; [|done].
  destruct (resize_all fuel w l) as [l0|] eqn:El; [|done].
  injection H as <-. destruct i as [|i].
  - injection Hi as <-. by exists s0'.
  - by apply (IH l0 i st).
Qed.

(** [destroy] forgets the instance and nothing more.  On an object that
    holds an instance and matches at least one element the command writes
    its message once and clears the key; after that every command by
    name leaves everything as it is.  The instance itself is not taken
    down: its resize handler stays bound, so a later resize notification
    still runs [_updateContainerWidth] on it. *)
Theorem destroy_forgets_the_instance_only
    (fuel : nat) (ident : Z) (d : dom) (pg : page) (i : nat) (st : plugin) :
  stored pg = Some i →
  instances pg !! i = Some st →
  (0 < matched pg)%nat →
  shapeshift fuel ident d (ArgString "destroy") pg
  = Some (mkPage (matched pg) (instances pg) None
                 (console pg ++ [destroy_message]))
  ∧ (∀ fuel' ident' d' name,
       shapeshift fuel' ident' d' (ArgString name)
         (mkPage (matched pg) (instances pg) None
                 (console pg ++ [destroy_message]))
       = Some (mkPage (matched pg) (instances pg) None
                      (console pg ++ [destroy_message])))
  ∧ (∀ fuel' w l',
       resize_all fuel' w (instances pg) = Some l' →
       window_resize fuel' w
         (mkPage (matched pg) (instances pg) None
                 (console pg ++ [destroy_message]))
       = Some (mkPage (matched pg) l' None (console pg ++ [destroy_message]))
       ∧ ∃ st', _updateContainerWidth fuel' w st = Some st'
                ∧ l' !! i = Some st').
Proof.
  intros Hs Hi Hm.
  destruct pg as [m l s c]. cbn [matched instances stored console] in *.
  subst s. split_and!.
  - unfold shapeshift. cbn [instantiation is_public_function].
    replace (negb (starts_with_underscore "destroy")
             && negb (String.eqb "destroy" "init")) with true by reflexivity.
    destruct m as [|n]; [lia|]. cbn [matched each].
    unfold call_method at 1. cbn [stored instances]. rewrite Hi.
    unfold invoke.
    replace (String.eqb "destroy" "update") with false by reflexivity.
    replace (String.eqb "destroy" "render") with false by reflexivity.
    replace (String.eqb "destroy" "destroy") with true by reflexivity.
    cbn [matched instances stored console].
    by apply each_fixed.
  - intros fuel' ident' d' name. unfold shapeshift.
    cbn [instantiation]. destruct (is_public_function (ArgString name)); [|done].
    apply each_fixed. unfold call_method. cbn [stored].
    by destruct (String.eqb name "destroy").
  - intros fuel' w l' Hr. split.
    + unfold window_resize. cbn [instances]. by rewrite Hr.
    + by eapply resize_all_lookup.
Qed.

Lemma destroy_forgets_the_instance_only_witness :
  shapeshift 0 0 scenario_dom (ArgString "destroy")
             (mkPage 2 [scenario_state] (Some 0%nat) [])
  = Some (mkPage 2 [scenario_state] None ([] ++ [destroy_message]))
  ∧ (∀ fuel' ident' d' name,
       shapeshift fuel' ident' d' (ArgString name)
         (mkPage 2 [scenario_state] None ([] ++ [destroy_message]))
       = Some (mkPage 2 [scenario_state] None ([] ++ [destroy_message])))
  ∧ (∀ fuel' w l',
       resize_all fuel' w [scenario_state] = Some l' →
       window_resize fuel' w
         (mkPage 2 [scenario_state] None ([] ++ [destroy_message]))
       = Some (mkPage 2 l' None ([] ++ [destroy_message]))
       ∧ ∃ st', _updateContainerWidth fuel' w scenario_state = Some st'
                ∧ l' !! 0%nat = Some st').
Proof.
  apply (destroy_forgets_the_instance_only 0 0 scenario_dom
           (mkPage 2 [scenario_state] (Some 0%nat) []) 0 scenario_state).
  - reflexivity.
  - reflexivity.
  - simpl. lia.
Defined.

Lemma call_method_frame name pg :
  ∃ pg', call_method name pg = Some pg'
         ∧ matched pg' = matched pg
         ∧ length (instances pg') = length (instances pg)
         ∧ (stored pg' = stored pg ∨ stored pg' = None)
         ∧ ∀ j, stored pg ≠ Some j → instances pg' !! j = instances pg !! j.
Proof.
  unfold call_method. eexists. split; [reflexivity|].
  destruct (stored pg) as [i|] eqn:Es.
  - destruct (instances pg !! i) as [st|] eqn:Ei.
    + unfold invoke.
      destruct (String.eqb name "update");
        [|destruct (String.eqb name "render")];
        destruct (String.eqb name "destroy");
        cbn [matched instances stored console];
        rewrite ?length_insert; split_and!; auto;
        intros j Hj; apply list_lookup_insert_ne; congruence.
    + destruct (String.eqb name "destroy"); cbn; rewrite ?Es; auto.
  - destruct (String.eqb name "destroy"); cbn; rewrite ?Es; auto.
Qed.

Lemma each_call_frame name n : ∀ pg,
  ∃ pg', each n (call_method name) pg = Some pg'
         ∧ matched pg' = matched pg
         ∧ length (instances pg') = length (instances pg)
         ∧ (stored pg' = stored pg ∨ stored pg' = None)
         ∧ ∀ j, stored pg ≠ Some j → instances pg' !! j = instances pg !! j.
Proof.
  induction n as [|n IH]; intros pg.
  - exists pg. split_and!; auto.
  - destruct (call_method_frame name pg) as (pg1 & H1 & M1 & L1 & S1 & I1).
    destruct (IH pg1) as (pg2 & H2 & M2 & L2 & S2 & I2).
    exists pg2. cbn [each]. rewrite H1. split_and!; try congruence.
    + destruct S2 as [E|E]; rewrite E; auto.
    + intros j Hj. rewrite I2, I1; [done|done|].
      destruct S1 as [E|E]; rewrite E; [done|discriminate].
Qed.

(** A command by name always returns, and it neither constructs nor drops
    an instance: the matched elements and the number of instances are
    what they were, and no instance other than the stored one is touched.
    A name that begins with an underscore, the name [init], and an
    argument that is neither a string nor an object change nothing at
    all. *)
Theorem commands_keep_the_instances
    (fuel : nat) (ident : Z) (d : dom) (a : argument) (pg : page) :
  instantiation a = None →
  ∃ pg', shapeshift fuel ident d a pg = Some pg'
         ∧ matched pg' = matched pg
         ∧ length (instances pg') = length (instances pg)
         ∧ (∀ j, stored pg ≠ Some j → instances pg' !! j = instances pg !! j)
         ∧ (∀ name, a = ArgString name →
                    starts_with_underscore name = true ∨ name = "init" →
                    pg' = pg)
         ∧ (a = ArgOther → pg' = pg).
Proof.
  intros Ha. unfold shapeshift. rewrite Ha.
  destruct a as [|user|name|]; try discriminate.
  - destruct (is_public_function (ArgString name)) eqn:Ep.
    + destruct (each_call_frame name (matched pg) pg)
        as (pg' & H & M & L & _ & I).
      exists pg'. split_and!; try done.
      intros name' [= <-] [Hu| ->]; exfalso.
      * cbn [is_public_function] in Ep. by rewrite Hu in Ep.
      * cbn [is_public_function] in Ep.
        by rewrite andb_comm in Ep.
    + exists pg. by split_and!.
  - exists pg. by split_and!.
Qed.

Lemma commands_keep_the_instances_witness :
  ∃ pg', shapeshift 0 0 scenario_dom (ArgString "_pack")
                    (mkPage 2 [scenario_state] (Some 0%nat) []) = Some pg'
         ∧ matched pg' = 2%nat
         ∧ length (instances pg') = 1%nat
         ∧ (∀ j, Some 0%nat ≠ Some j →
                 instances pg' !! j = [scenario_state] !! j)
         ∧ (∀ name, ArgString "_pack" = ArgString name →
                    starts_with_underscore name = true ∨ name = "init" →
                    pg' = mkPage 2 [scenario_state] (Some 0%nat) [])
         ∧ (ArgString "_pack" = ArgOther →
            pg' = mkPage 2 [scenario_state] (Some 0%nat) []).
Proof.
  apply (commands_keep_the_instances 0 0 scenario_dom (ArgString "_pack")
           (mkPage 2 [scenario_state] (Some 0%nat) [])).
  reflexivity.
Defined.

(** * More on the resize reactor *)

Lemma resize_caches_width fuel w st st' :
  not_nan w →
  _updateContainerWidth fuel w st = Some st' →
  containerWidth st' = VNum w.
Proof.
  intros Hw H. unfold _updateContainerWidth in H.
  destruct (strict_neq (VNum w) (containerWidth st)) eqn:E.
  - unfold _containerWidthChanged in H.
    destruct (strict_neq (VNum (_getColumnCount _)) _).
    + apply _columnCountChanged_Some in H as (_ & _ & ->).
      by rewrite update_containerWidth.
    + by injection H as <-.
  - injection H as <-. unfold strict_neq in E. apply negb_false_iff in E.
    destruct (containerWidth st) as [|n]; [done|].
    apply num_eqb_eq in E. by subst.
Qed.

(** A resize notification that measures the width of the notification
    before it is a no-op: once the handler has returned for a width that
    is a number, running it again for that width, on any fuel, returns
    the plugin unchanged. *)
Theorem repeated_resize_is_a_noop
    (fuel fuel' : nat) (w : num) (st st' : plugin) :
  not_nan w →
  _updateContainerWidth fuel w st = Some st' →
  _updateContainerWidth fuel' w st' = Some st'.
Proof.
  intros Hw H. pose proof (resize_caches_width _ _ _ _ Hw H) as Hc.
  unfold _updateContainerWidth, strict_neq. rewrite Hc.
  cbn [strict_eq]. by rewrite num_eqb_refl.
Qed.

Lemma repeated_resize_is_a_noop_witness :
  _updateContainerWidth 0 (Fin 220) scenario_resized = Some scenario_resized.
Proof.
  apply (repeated_resize_is_a_noop 5 0 (Fin 220)
           (default scenario_state
              (_updateContainerWidth 5 (Fin 470) scenario_state))
           scenario_resized).
  - reflexivity.
  - vm_compute. reflexivity.
Defined.

(** A resize that changes the column count lays everything out again.
    When the measured width differs from the cached one and the count
    recomputed from it differs from the stored one, the handler, if it
    returns, has cached the width, rebuilt the columns for the new count,
    packed every item from zeroed columns and handed every item to the
    sink, in registration order. *)
Theorem resize_new_column_count_relayouts
    (fuel : nat) (w : num) (st st' : plugin) :
  strict_neq (VNum w) (containerWidth st) = true →
  strict_neq (VNum (_getColumnCount (set_containerWidth st (VNum w))))
             (colCount st) = true →
  _updateContainerWidth fuel w st = Some st' →
  containerWidth st' = VNum w
  ∧ colCount st'
    = VNum (Fin (Z.of_nat
                   (columns_of (_getColumnCount
                                  (set_containerWidth st (VNum w))))))
  ∧ children st'
    = children
        (_pack (set_colHeights st
                  (array_of
                     (replicate
                        (columns_of (_getColumnCount
                                       (set_containerWidth st (VNum w))))
                        (Fin 0)))))
  ∧ colHeights st'
    = colHeights
        (_pack (set_colHeights st
                  (array_of
                     (replicate
                        (columns_of (_getColumnCount
                                       (set_containerWidth st (VNum w))))
                        (Fin 0)))))
  ∧ trace st'
    = trace st ++ map (λ c, Packed (index c)) (children st)
      ++ map (λ c, Placed (index c) (x c) (y c)) (children st').
Proof.
  intros Hw Hn H. unfold _updateContainerWidth in H. rewrite Hw in H.
  unfold _containerWidthChanged in H.
  cbn [colCount set_containerWidth] in H. rewrite Hn in H.
  apply _columnCountChanged_Some in H as (_ & _ & ->).
  set (n := columns_of (_getColumnCount (set_containerWidth st (VNum w)))).
  set (s := set_colCount _ _).
  destruct (pack_each_same (children st) (children st) s
              (set_colHeights st (array_of (replicate n (Fin 0)))))
    as [E1 E2]; try done.
  split_and!.
  - by rewrite update_containerWidth.
  - by rewrite update_colCount.
  - rewrite update_children, !_pack_children. exact E1.
  - rewrite update_colHeights, !_pack_colHeights. exact E2.
  - unfold update.
    destruct (render_frame (_pack s)) as (-> & _ & _ & _ & _ & _ & _ & _ & ->).
    destruct (_pack_frame s) as (_ & _ & _ & _ & _ & _ & -> & _).
    by rewrite app_assoc.
Qed.

Definition scenario_wide : plugin :=
  default scenario_state (_updateContainerWidth 5 (Fin 470) scenario_state).

Lemma resize_new_column_count_relayouts_witness :
  containerWidth scenario_wide = VNum (Fin 470)
  ∧ colCount scenario_wide
    = VNum (Fin (Z.of_nat
                   (columns_of (_getColumnCount
                                  (set_containerWidth scenario_state
                                                      (VNum (Fin 470)))))))
  ∧ children scenario_wide
    = children
        (_pack (set_colHeights scenario_state
                  (array_of
                     (replicate
                        (columns_of (_getColumnCount
                                       (set_containerWidth scenario_state
                                                           (VNum (Fin 470)))))
                        (Fin 0)))))
  ∧ colHeights scenario_wide
    = colHeights
        (_pack (set_colHeights scenario_state
                  (array_of
                     (replicate
                        (columns_of (_getColumnCount
                                       (set_containerWidth scenario_state
                                                           (VNum (Fin 470)))))
                        (Fin 0)))))
  ∧ trace scenario_wide
    = trace scenario_state
      ++ map (λ c, Packed (index c)) (children scenario_state)
      ++ map (λ c, Placed (index c) (x c) (y c)) (children scenario_wide).
Proof.
  apply (resize_new_column_count_relayouts 5 (Fin 470) scenario_state
           scenario_wide).
  - reflexivity.
  - reflexivity.
  - vm_compute. reflexivity.
Defined.


(** * Statements that depend on the arithmetic *)

(** ** Where the integer arithmetic is the program's *)

(** [Number.MAX_SAFE_INTEGER], 2^53 - 1.  An integer of at most this
    magnitude is a double; a sum or product of two such integers that is
    itself within the range is computed by the program without rounding,
    and so is [Math.floor] of the quotient of two of them.  Outside the
    range, and on fractional measurements, the program rounds and [add],
    [mul] and [floor_div] do not follow it: the statements below say
    where they need the range. *)
Definition max_safe_integer : Z := 9007199254740991.

Definition safe (z : Z) : Prop := - max_safe_integer ≤ z ≤ max_safe_integer.

Definition is_safe (n : num) : bool :=
  match n with
  | Fin z => (- max_safe_integer <=? z) && (z <=? max_safe_integer)
  | _ => false
  end.

(** One call of [_packChild] in which every number read and every number
    computed is an integer in the safe range: the column heights before
    and after, the gutters, the item's width and height, the two products
    and the two sums. *)
Definition exact_step (st : plugin) (c : child) : bool :=
  let column := _fitMinIndex (colHeights st) in
  forallb is_safe (elems (colHeights st))
  && is_safe (gutterX st) && is_safe (gutterY st)
  && is_safe (el_width (el c)) && is_safe (height c)
  && is_safe (mul (Fin column) (gutterX st))
  && is_safe (mul (Fin column) (el_width (el c)))
  && is_safe (x (_packChild st c).2)
  && is_safe (add (height c) (gutterY st))
  && forallb is_safe (elems (colHeights (_packChild st c).1)).

(** A pass all of whose calls are of that kind (with no item, the column
    heights and the gutters alone are asked to be in the range). *)
Fixpoint exact_run (st : plugin) (cs : list child) : bool :=
  match cs with
  | [] => forallb is_safe (elems (colHeights st))
          && is_safe (gutterX st) && is_safe (gutterY st)
  | c :: cs' => exact_step st c && exact_run (_packChild st c).1 cs'
  end.

Definition exact_pass (st : plugin) : Prop :=
  exact_run st (children st) = true.

Lemma is_safe_inv n : is_safe n = true → ∃ z, n = Fin z ∧ safe z.
Proof.
  destruct n as [z| | |]; try done. simpl. intros H.
  apply andb_true_iff in H as [H1 H2].
  apply Z.leb_le in H1, H2. exists z. split; [done|]. split; done.
Qed.

Lemma is_safe_fin n : is_safe n = true → is_fin n.
Proof. by destruct n. Qed.

Lemma forallb_is_safe l :
  forallb is_safe l = true → Forall (λ n, ∃ z, n = Fin z ∧ safe z) l.
Proof.
  induction l as [|a l IH]; [by constructor|].
  simpl. intros [Ha Hl]%andb_true_iff.
  constructor; [by apply is_safe_inv|by apply IH].
Qed.

Lemma forallb_is_fin l : forallb is_safe l = true → Forall is_fin l.
Proof.
  intros H. eapply Forall_impl; [by apply forallb_is_safe|].
  by intros n (z & -> & _).
Qed.

Lemma exact_run_numeric cs : ∀ st,
  exact_run st cs = true → elems (colHeights st) ≠ [] →
  numeric_state st ∧ Forall numeric_child cs.
Proof.
  induction cs as [|c cs IH]; intros st H Hne.
  - cbn [exact_run] in H.
    apply andb_true_iff in H as [[Hh Hx]%andb_true_iff Hy].
    split; [|constructor].
    split; [done|by apply forallb_is_fin|by apply is_safe_fin..].
  - cbn [exact_run] in H. apply andb_true_iff in H as [Hs Hr].
    unfold exact_step in Hs.
    repeat (apply andb_true_iff in Hs as [Hs ?]).
    assert (numeric_state st) as Hst.
    { split; [done|by apply forallb_is_fin|by apply is_safe_fin..]. }
    assert (numeric_child c) as Hc by (split; by apply is_safe_fin).
    split; [done|]. constructor; [done|].
    apply (IH (_packChild st c).1); [done|].
    by destruct (_packChild_numeric_state st c Hst Hc).
Qed.

Lemma exact_pass_numeric st :
  exact_pass st → elems (colHeights st) ≠ [] →
  numeric_state st ∧ Forall numeric_child (children st).
Proof. apply exact_run_numeric. Qed.

(** ** Column count, in the range *)

(** C2, amended. For all integers containerWidth, itemWidth and gutterX
    that lie, with the sums containerWidth + gutterX and
    itemWidth + gutterX, in the safe range (magnitude at most 2^53 - 1),
    and with [itemWidth + gutterX > 0] and [containerWidth + gutterX >= 0],
    the column count is the integer
    floor((containerWidth + gutterX) / (itemWidth + gutterX)), and it is
    not negative; with item width 100 and gutter 10 it is 3 at container
    width 320 and 2 at 319. *)
Theorem column_count_floor (cw iw gx : Z) :
  safe cw → safe iw → safe gx → safe (cw + gx) → safe (iw + gx) →
  0 < iw + gx → 0 ≤ cw + gx →
  computeColumnCount (Fin cw) (Fin iw) (Fin gx) = Fin ((cw + gx) / (iw + gx))
  ∧ 0 ≤ (cw + gx) / (iw + gx)
  ∧ safe ((cw + gx) / (iw + gx))
  ∧ computeColumnCount (Fin 320) (Fin 100) (Fin 10) = Fin 3
  ∧ computeColumnCount (Fin 319) (Fin 100) (Fin 10) = Fin 2.
Proof.
  intros _ _ _ Hn Hd Hpos Hnn. split_and!; try reflexivity.
  - apply computeColumnCount_fin. lia.
  - apply Z.div_pos; lia.
  - assert (0 ≤ (cw + gx) / (iw + gx)) by (apply Z.div_pos; lia).
    assert ((cw + gx) / (iw + gx) ≤ cw + gx)
      by (apply Z.div_le_upper_bound; nia).
    unfold safe, max_safe_integer in *. lia.
Qed.

Lemma column_count_floor_witness :
  computeColumnCount (Fin 340) (Fin 100) (Fin 20) = Fin ((340 + 20) / (100 + 20))
  ∧ 0 ≤ (340 + 20) / (100 + 20)
  ∧ safe ((340 + 20) / (100 + 20))
  ∧ computeColumnCount (Fin 320) (Fin 100) (Fin 10) = Fin 3
  ∧ computeColumnCount (Fin 319) (Fin 100) (Fin 10) = Fin 2.
Proof.
  apply (column_count_floor 340 100 20);
    unfold safe, max_safe_integer; lia.
Defined.

(** ** The greedy choice *)

(** The options [{gutter: [20]}]: the vertical gutter is [undefined],
    which the one sum that reads it turns into [NaN]. *)
Definition half_gutter : options := mkOptions (Fin 20, NaN).

(** A non-empty array on which the search does not return the lowest
    column of least height: after [init] with [{gutter: [20]}] the first
    column holds [NaN], the other two are at 0, and [_fitMinIndex]
    answers [-1]. *)
Lemma nan_column_defeats_the_search :
  ∃ st, init 4 0 (Some half_gutter) scenario_dom = Some st
        ∧ elems (colHeights st) = [NaN; Fin 0; Fin 0]
        ∧ _fitMinIndex (colHeights st) = -1.
Proof. eexists. split_and!; reflexivity. Qed.

(** C3, amended. Greedy tie-break: on every non-empty array of column
    heights that holds no [NaN], the column chosen for the next item is
    the first index [i] holding the least height [m]: no column is lower
    than [m], no column before [i] holds [m], the item gets [y = m], and
    no other column changes.  On [50, 30, 30] the choice is column 1. *)
Theorem tie_break_lowest_index (st : plugin) (c : child) :
  elems (colHeights st) ≠ [] →
  Forall not_nan (elems (colHeights st)) →
  ∃ (i : nat) (m : num),
    _fitMinIndex (colHeights st) = Z.of_nat i
    ∧ elems (colHeights st) !! i = Some m
    ∧ (∀ j v, elems (colHeights st) !! j = Some v → num_le m v)
    ∧ (∀ j v, (j < i)%nat → elems (colHeights st) !! j = Some v → v ≠ m)
    ∧ y (_packChild st c).2 = VNum m
    ∧ (∀ j, j ≠ i →
            elems (colHeights (_packChild st c).1) !! j
            = elems (colHeights st) !! j)
    ∧ _fitMinIndex (array_of [Fin 50; Fin 30; Fin 30]) = 1.
Proof.
  intros Hne Hnn.
  destruct (_fitMinIndex_first_min _ Hne Hnn) as (i & m & Hi & Hm & Hlow & Hfirst).
  exists i, m. rewrite (_packChild_at st c i m Hi Hm).
  split_and!; try done.
  intros j Hj. cbn. by apply list_lookup_insert_ne.
Qed.

Definition tie_state : plugin :=
  mkPlugin 0 [] (array_of [Fin 50; Fin 30; Fin 30]) (Fin 10) (Fin 10)
           (VNum (Fin 100)) (VNum (Fin 320)) (VNum (Fin 3)) [].

Definition tie_child : child :=
  mkChild (mkElement (Fin 100) (Fin 40)) 0 (Fin 40) (Fin 0) (VNum (Fin 0)).

Lemma tie_break_lowest_index_witness :
  ∃ (i : nat) (m : num),
    _fitMinIndex (colHeights tie_state) = Z.of_nat i
    ∧ elems (colHeights tie_state) !! i = Some m
    ∧ (∀ j v, elems (colHeights tie_state) !! j = Some v → num_le m v)
    ∧ (∀ j v, (j < i)%nat → elems (colHeights tie_state) !! j = Some v → v ≠ m)
    ∧ y (_packChild tie_state tie_child).2 = VNum m
    ∧ (∀ j, j ≠ i →
            elems (colHeights (_packChild tie_state tie_child).1) !! j
            = elems (colHeights tie_state) !! j)
    ∧ _fitMinIndex (array_of [Fin 50; Fin 30; Fin 30]) = 1.
Proof.
  apply (tie_break_lowest_index tie_state tie_child).
  - discriminate.
  - repeat constructor.
Defined.

(** ** The packing step, in the range *)

(** A pass on a non-empty array that leaves the columns: after [init]
    with [{gutter: [20]}] in the container of the scenario, three columns
    are built, the first item turns its column into [NaN], and the search
    of every later item answers [-1]: the second item is assigned
    [y = undefined], and [x = -120]. *)
Lemma nan_gutter_sends_items_out_of_bounds :
  ∃ st, init 4 0 (Some half_gutter) scenario_dom = Some st
        ∧ length (elems (colHeights st)) = 3%nat
        ∧ _fitMinIndex
            (colHeights
               (before_child
                  (zeroed (measured 0 (Some half_gutter) scenario_dom)) 1))
          = -1
        ∧ (coords <$> children st) !! 1%nat = Some (Fin (-120), VUndef).
Proof. eexists. split_and!; reflexivity. Qed.

(** C9, amended. Bounds of the packing step.  In a pass with at least one
    column in which every number read or computed is an integer in the
    safe range (so no [NaN] enters the columns), when the [k]-th item is
    about to be packed [_fitMinIndex] returns an index [i] inside the
    array, the first one holding the least height [m]; the item is
    assigned [y = m], the height of that existing column, and
    [x = i * width + i * gutterX], a number.  Without a column the
    guarantee is lost: on an empty array [_fitMinIndex] is [-1], the
    lookup falls outside the array and reads [undefined], and no column
    records the item. *)
Theorem pack_step_in_bounds (st : plugin) (k : nat) (c : child) :
  elems (colHeights st) ≠ [] →
  exact_pass st →
  children st !! k = Some c →
  (∃ (i : nat) (m w gx : Z),
      _fitMinIndex (colHeights (before_child st k)) = Z.of_nat i
      ∧ (i < length (elems (colHeights (before_child st k))))%nat
      ∧ elems (colHeights (before_child st k)) !! i = Some (Fin m)
      ∧ (∀ j v, elems (colHeights (before_child st k)) !! j = Some v →
                num_le (Fin m) v)
      ∧ (∀ j v, (j < i)%nat →
                elems (colHeights (before_child st k)) !! j = Some v →
                v ≠ Fin m)
      ∧ el_width (el c) = Fin w ∧ gutterX st = Fin gx
      ∧ children (_pack st) !! k
        = Some (mkChild (el c) (index c) (height c)
                        (Fin (Z.of_nat i * w + Z.of_nat i * gx))
                        (VNum (Fin m))))
  ∧ (∀ a, elems a = [] → _fitMinIndex a = -1)
  ∧ get (array_of []) (_fitMinIndex (array_of [])) = VUndef
  ∧ (∀ st0 c0, colHeights st0 = array_of [] →
               y (_packChild st0 c0).2 = VUndef
               ∧ elems (colHeights (_packChild st0 c0).1) = []).
Proof.
  intros Hne Hex Hk.
  destruct (exact_pass_numeric st Hex Hne) as [Hst Hcs].
  split_and!.
  - assert (numeric_state (before_child st k)) as Hbefore.
    { apply pack_each_numeric; [done|]. by apply Forall_take. }
    assert (numeric_child c) as Hc by (eapply Forall_lookup_1; eauto).
    destruct (_packChild_numeric _ c Hbefore Hc)
      as (i & m & w & h & gx & gy & Hi & Hm & Hlow & Hfirst & Hw & _ & Hgx & _ & Hstep).
    exists i, m, w, gx. split_and!; try done.
    + by eapply lookup_lt_Some.
    + rewrite <- Hgx. unfold before_child.
      by destruct (pack_each_frame st (take k (children st))) as (-> & _).
    + rewrite _pack_children, (pack_each_lookup st _ k c Hk).
      fold (before_child st k). by rewrite Hstep.
  - exact _fitMinIndex_empty.
  - reflexivity.
  - intros st0 c0 H0.
    rewrite _packChild_m1 by (by rewrite H0). cbn. by rewrite H0.
Qed.

Lemma pack_step_in_bounds_witness :
  (∃ (i : nat) (m w gx : Z),
      _fitMinIndex (colHeights (before_child scenario_fresh 3)) = Z.of_nat i
      ∧ (i < length (elems (colHeights (before_child scenario_fresh 3))))%nat
      ∧ elems (colHeights (before_child scenario_fresh 3)) !! i = Some (Fin m)
      ∧ (∀ j v, elems (colHeights (before_child scenario_fresh 3)) !! j = Some v →
                num_le (Fin m) v)
      ∧ (∀ j v, (j < i)%nat →
                elems (colHeights (before_child scenario_fresh 3)) !! j = Some v →
                v ≠ Fin m)
      ∧ el_width (mkElement (Fin 100) (Fin 60)) = Fin w
      ∧ gutterX scenario_fresh = Fin gx
      ∧ children (_pack scenario_fresh) !! 3%nat
        = Some (mkChild (mkElement (Fin 100) (Fin 60)) 3 (Fin 60)
                        (Fin (Z.of_nat i * w + Z.of_nat i * gx))
                        (VNum (Fin m))))
  ∧ (∀ a, elems a = [] → _fitMinIndex a = -1)
  ∧ get (array_of []) (_fitMinIndex (array_of [])) = VUndef
  ∧ (∀ st0 c0, colHeights st0 = array_of [] →
               y (_packChild st0 c0).2 = VUndef
               ∧ elems (colHeights (_packChild st0 c0).1) = []).
Proof.
  apply (pack_step_in_bounds scenario_fresh 3
           (mkChild (mkElement (Fin 100) (Fin 60)) 3 (Fin 60) (Fin 0)
                    (VNum (Fin 0)))).
  - discriminate.
  - vm_compute. reflexivity.
  - reflexivity.
Defined.

(** ** Accumulation across passes, in the range *)

Lemma zincr_heights gy cs cs' :
  map height cs = map height cs' → zincr gy cs = zincr gy cs'.
Proof.
  revert cs'. induction cs as [|c cs IH]; intros [|c' cs'] H; try done.
  cbn [map] in H. injection H as Hc H. unfold zincr in *. cbn [foldr].
  by rewrite Hc, (IH cs' H).
Qed.

Lemma resize_keeps_heights_or_count_changes fuel w st st' :
  _updateContainerWidth fuel w st = Some st' →
  colHeights st' = colHeights st
  ∨ strict_neq (VNum (_getColumnCount (set_containerWidth st (VNum w))))
               (colCount st) = true.
Proof.
  intros H. unfold _updateContainerWidth in H.
  destruct (strict_neq (VNum w) (containerWidth st)); [|left; by injection H as <-].
  unfold _containerWidthChanged in H. cbn [colCount set_containerWidth] in H.
  destruct (strict_neq (VNum (_getColumnCount _)) (colCount st)); [by right|].
  left. by injection H as <-.
Qed.

(** C10, amended. [update] does not zero the column heights.  With at
    least one column, and as long as every number read or computed in a
    pass is an integer in the safe range, each pass adds exactly the sum
    over the items of [height + gutterY] to the total of the column
    heights, the first [update] and the next alike; whenever that sum is
    not 0, a second [update] leaves other column heights than the first,
    so the two calls are not idempotent.  Nothing but a change of the
    column count rebuilds the heights: [render] leaves them alone, the
    resize handler leaves them alone unless the count it recomputes
    differs from the stored one, and what [_resetColHeights] then builds
    holds nothing but 0. *)
Theorem update_accumulates (st : plugin) :
  elems (colHeights st) ≠ [] →
  exact_pass st →
  exact_pass (update st) →
  zsum (elems (colHeights (update st)))
  = zsum (elems (colHeights st)) + zincr (gutterY st) (children st)
  ∧ zsum (elems (colHeights (update (update st))))
    = zsum (elems (colHeights (update st))) + zincr (gutterY st) (children st)
  ∧ (zincr (gutterY st) (children st) ≠ 0 →
     colHeights (update (update st)) ≠ colHeights (update st))
  ∧ colHeights (render st) = colHeights st
  ∧ (∀ fuel w st',
       _updateContainerWidth fuel w st = Some st' →
       colHeights st' = colHeights st
       ∨ strict_neq (VNum (_getColumnCount (set_containerWidth st (VNum w))))
                    (colCount st) = true)
  ∧ (∀ fuel st', _resetColHeights fuel st = Some st' →
                 Forall (λ h, h = Fin 0) (elems (colHeights st'))).
Proof.
  intros Hne Hex Hex'.
  destruct (exact_pass_numeric st Hex Hne) as [Hst Hcs].
  destruct (update_numeric st Hst Hcs) as (Hst' & Hcs' & _).
  assert (zsum (elems (colHeights (update st)))
          = zsum (elems (colHeights st)) + zincr (gutterY st) (children st))
    as H1.
  { rewrite update_colHeights, _pack_colHeights. by apply pack_each_total. }
  assert (zsum (elems (colHeights (update (update st))))
          = zsum (elems (colHeights (update st)))
            + zincr (gutterY st) (children st)) as H2.
  { rewrite (update_colHeights (update st)), _pack_colHeights.
    rewrite pack_each_total by done. f_equal.
    destruct (_pack_frame st) as (_ & Gy & _ & _ & _ & _ & _ & _ & _ & _ & Gh).
    destruct (render_frame (_pack st)) as (Rc & _ & _ & Ry & _).
    unfold update at 1 2. rewrite Ry, Gy, Rc. by apply zincr_heights. }
  split_and!; [done|done| | | |].
  - intros Hnz Heq. rewrite Heq in H2. lia.
  - by destruct (render_frame st) as (_ & -> & _).
  - intros fuel w st'. apply resize_keeps_heights_or_count_changes.
  - intros fuel st' H. unfold _resetColHeights in H.
    destruct (reset_loop fuel (_getColumnCount st) 0 []) as [r|] eqn:E; [|done].
    injection H as <-. simpl. by eapply reset_loop_zero.
Qed.

Lemma update_accumulates_witness :
  zsum (elems (colHeights (update scenario_fresh)))
  = zsum (elems (colHeights scenario_fresh))
    + zincr (gutterY scenario_fresh) (children scenario_fresh)
  ∧ zsum (elems (colHeights (update (update scenario_fresh))))
    = zsum (elems (colHeights (update scenario_fresh)))
      + zincr (gutterY scenario_fresh) (children scenario_fresh)
  ∧ (zincr (gutterY scenario_fresh) (children scenario_fresh) ≠ 0 →
     colHeights (update (update scenario_fresh))
     ≠ colHeights (update scenario_fresh))
  ∧ colHeights (render scenario_fresh) = colHeights scenario_fresh
  ∧ (∀ fuel w st',
       _updateContainerWidth fuel w scenario_fresh = Some st' →
       colHeights st' = colHeights scenario_fresh
       ∨ strict_neq (VNum (_getColumnCount
                             (set_containerWidth scenario_fresh (VNum w))))
                    (colCount scenario_fresh) = true)
  ∧ (∀ fuel st', _resetColHeights fuel scenario_fresh = Some st' →
                 Forall (λ h, h = Fin 0) (elems (colHeights st'))).
Proof.
  apply (update_accumulates scenario_fresh).
  - discriminate.
  - vm_compute. reflexivity.
  - vm_compute. reflexivity.
Defined.

(** * Further properties that depend on the arithmetic *)

(** ** Columns that fit *)

(** For integers in the safe range (the two sums the code forms
    included) and a positive [itemWidth + gutterX], [n] columns are
    counted exactly when [n] items and the [n - 1] gutters between them
    fit the container; so the count never shrinks when the container
    grows. *)
Theorem column_count_fits (cw cw' iw gx n : Z) :
  safe cw → safe cw' → safe iw → safe gx →
  safe (cw + gx) → safe (cw' + gx) → safe (iw + gx) →
  0 < iw + gx →
  ∃ c c', computeColumnCount (Fin cw) (Fin iw) (Fin gx) = Fin c
          ∧ computeColumnCount (Fin cw') (Fin iw) (Fin gx) = Fin c'
          ∧ (n ≤ c ↔ n * iw + (n - 1) * gx ≤ cw)
          ∧ (cw ≤ cw' → c ≤ c').
Proof.
  intros _ _ _ _ _ _ _ Hd.
  exists ((cw + gx) / (iw + gx)), ((cw' + gx) / (iw + gx)).
  rewrite !computeColumnCount_fin by lia. split_and!; try done.
  - split.
    + intros Hn.
      pose proof (Z.mul_div_le (cw + gx) (iw + gx) Hd). nia.
    + intros Hn. apply Z.div_le_lower_bound; [done|]. nia.
  - intros Hle. apply Z.div_le_mono; lia.
Qed.

Lemma column_count_fits_witness :
  ∃ c c', computeColumnCount (Fin 340) (Fin 100) (Fin 20) = Fin c
          ∧ computeColumnCount (Fin 470) (Fin 100) (Fin 20) = Fin c'
          ∧ (3 ≤ c ↔ 3 * 100 + (3 - 1) * 20 ≤ 340)
          ∧ (340 ≤ 470 → c ≤ c').
Proof.
  apply (column_count_fits 340 470 100 20 3);
    unfold safe, max_safe_integer; lia.
Defined.

(** ** Balance *)

(** In a pass with at least one column in which every number read or
    computed is an integer in the safe range, and where every item adds
    between 0 and [M] (its height plus the vertical gutter): if no two
    columns differ by more than [M] before the pass, as is the case right
    after a reset, none do after it. *)
Theorem pack_keeps_columns_level (st : plugin) (M : Z) (a b : nat) (za zb : Z) :
  elems (colHeights st) ≠ [] →
  exact_pass st →
  Forall (adds_at_most M (gutterY st)) (children st) →
  (∀ a b za zb, elems (colHeights st) !! a = Some (Fin za) →
                elems (colHeights st) !! b = Some (Fin zb) → za - zb ≤ M) →
  elems (colHeights (_pack st)) !! a = Some (Fin za) →
  elems (colHeights (_pack st)) !! b = Some (Fin zb) →
  za - zb ≤ M.
Proof.
  intros Hne Hex Hm Hlev Ha Hb.
  destruct (exact_pass_numeric st Hex Hne) as [Hst Hcs].
  pose proof (pack_each_numeric st _ Hst Hcs) as [_ Hfin' _ _].
  rewrite _pack_colHeights in Ha, Hb.
  apply (zheights_lookup _ _ _ Hfin') in Ha, Hb.
  eapply (pack_each_level M (children st) st); try done.
  intros a' b' za' zb' Ha' Hb'. destruct Hst as [_ Hfin _ _].
  apply (zheights_lookup _ _ _ Hfin) in Ha', Hb'. eauto.
Qed.

Lemma pack_keeps_columns_level_witness :
  elems (colHeights (_pack scenario_fresh)) !! 0%nat = Some (Fin 110)
  ∧ elems (colHeights (_pack scenario_fresh)) !! 1%nat = Some (Fin 90)
  ∧ 110 - 90 ≤ 90.
Proof.
  split_and!; [reflexivity|reflexivity|].
  apply (pack_keeps_columns_level scenario_fresh 90 0 1).
  - discriminate.
  - vm_compute. reflexivity.
  - repeat constructor; unfold adds_at_most; simpl; lia.
  - intros a b za zb Ha Hb.
    destruct a as [|[|[|a]]]; try discriminate Ha;
      destruct b as [|[|[|b]]]; try discriminate Hb;
      injection Ha as <-; injection Hb as <-; lia.
  - reflexivity.
  - reflexivity.
Defined.

(** ** No overlap *)

(** Two placed items of width [w] whose rectangles do not meet: one lies
    wholly to the side of the other, or wholly below it. *)
Definition disjoint (w : Z) (c1 c2 : child) : Prop :=
  ∃ x1 y1 h1 x2 y2 h2,
    x c1 = Fin x1 ∧ y c1 = VNum (Fin y1) ∧ height c1 = Fin h1
    ∧ x c2 = Fin x2 ∧ y c2 = VNum (Fin y2) ∧ height c2 = Fin h2
    ∧ (x1 + w ≤ x2 ∨ x2 + w ≤ x1 ∨ y1 + h1 ≤ y2 ∨ y2 + h2 ≤ y1).

Lemma apart_disjoint w gx gy c1 c2 h2 :
  0 ≤ gx → 0 ≤ gy → height c2 = Fin h2 →
  apart w gx gy c1 c2 → disjoint w c1 c2.
Proof.
  intros Hgx Hgy Hh2 (x1 & y1 & h1 & x2 & y2 & Hx1 & Hy1 & Hh1 & Hx2 & Hy2 & H).
  exists x1, y1, h1, x2, y2, h2. split_and!; try done.
  destruct H as [[_ H]|[H|H]]; lia.
Qed.

Definition not_negative (c : child) : Prop := 0 ≤ fin_val (height c).

Lemma pack_apart_disjoint
    (st : plugin) (w gx gy : Z) (k l : nat) (ck cl : child) :
  elems (colHeights st) ≠ [] →
  exact_pass st →
  gutterX st = Fin gx → gutterY st = Fin gy →
  0 ≤ gx → 0 ≤ gy →
  Forall (λ c, el_width (el c) = Fin w) (children st) →
  Forall not_negative (children st) →
  0 < w + gx →
  (k < l)%nat →
  children (_pack st) !! k = Some ck →
  children (_pack st) !! l = Some cl →
  apart w gx gy ck cl ∧ disjoint w ck cl.
Proof.
  intros Hne Hex Hgx Hgy Hgx0 Hgy0 Hw Hh Hpos Hkl Hk Hl.
  destruct (exact_pass_numeric st Hex Hne) as [Hst Hcs].
  assert (Forall (grows (gutterY st)) (children st)) as Hg.
  { eapply Forall_impl; [exact Hh|]. intros c Hc.
    unfold grows, not_negative in *. rewrite Hgy. simpl. lia. }
  destruct (_pack_frame st) as (_ & _ & _ & _ & _ & _ & _ & _ & E & _ & Eh).
  assert (length (children (_pack st)) = length (children st)) as Hlen.
  { apply (f_equal length) in E. by rewrite !length_map in E. }
  assert (is_Some (children st !! k)) as [ck0 Hk0].
  { apply lookup_lt_is_Some. apply lookup_lt_Some in Hk. lia. }
  assert (is_Some (children st !! l)) as [cl0 Hl0].
  { apply lookup_lt_is_Some. apply lookup_lt_Some in Hl. lia. }
  assert (∃ h2, height cl = Fin h2) as [h2 Hh2].
  { assert (height cl = height cl0) as ->.
    { assert ((height <$> children (_pack st)) !! l
              = (height <$> children st) !! l) as Eq
        by (change ((map height (children (_pack st))) !! l
                    = (map height (children st)) !! l); by rewrite Eh).
      rewrite !list_lookup_fmap, Hl, Hl0 in Eq. by injection Eq. }
    eapply Forall_lookup_1 in Hcs; [|exact Hl0].
    destruct Hcs as [_ Hf]. by apply is_fin_inv. }
  rewrite (packed_child st k ck0 Hk0) in Hk.
  rewrite (packed_child st l cl0 Hl0) in Hl.
  assert (apart w gx gy ck cl) as Hap.
  { assert (ck = (_packChild (before_child st k) ck0).2) as -> by congruence.
    assert (cl = (_packChild (before_child st l) cl0).2) as -> by congruence.
    apply pack_apart_at; assumption. }
  split; [done|]. by apply (apart_disjoint w gx gy ck cl h2).
Qed.

(** The items of one pass do not overlap.  In a pass with at least one
    column in which every number read or computed is an integer in the
    safe range, with gutters that are not negative, items all of one
    width [w] with [w + gutterX > 0] and heights that are not negative:
    of any two items the one packed later lies in the same column, below
    the earlier one and its gutter, or in another column, a full width
    and gutter to the side; either way the two rectangles do not meet. *)
Theorem packed_items_do_not_overlap
    (st : plugin) (w gx gy : Z) (k l : nat) (ck cl : child) :
  elems (colHeights st) ≠ [] →
  exact_pass st →
  gutterX st = Fin gx → gutterY st = Fin gy →
  0 ≤ gx → 0 ≤ gy →
  Forall (λ c, el_width (el c) = Fin w) (children st) →
  Forall not_negative (children st) →
  0 < w + gx →
  (k < l)%nat →
  children (_pack st) !! k = Some ck →
  children (_pack st) !! l = Some cl →
  apart w gx gy ck cl ∧ disjoint w ck cl.
Proof. apply pack_apart_disjoint. Qed.

Lemma packed_items_do_not_overlap_witness :
  apart 100 20 10
        (mkChild (mkElement (Fin 100) (Fin 30)) 2 (Fin 30) (Fin 240)
                 (VNum (Fin 0)))
        (mkChild (mkElement (Fin 100) (Fin 60)) 3 (Fin 60) (Fin 240)
                 (VNum (Fin 40)))
  ∧ disjoint 100
        (mkChild (mkElement (Fin 100) (Fin 30)) 2 (Fin 30) (Fin 240)
                 (VNum (Fin 0)))
        (mkChild (mkElement (Fin 100) (Fin 60)) 3 (Fin 60) (Fin 240)
                 (VNum (Fin 40))).
Proof.
  apply (packed_items_do_not_overlap scenario_fresh 100 20 10 2 3).
  - discriminate.
  - vm_compute. reflexivity.
  - reflexivity.
  - reflexivity.
  - lia.
  - lia.
  - repeat constructor.
  - repeat constructor; unfold not_negative; simpl; lia.
  - lia.
  - lia.
  - reflexivity.
  - reflexivity.
Defined.

(** ** A container narrower than its first item *)

Definition narrow_dom : dom :=
  mkDom (Fin 50) [mkElement (Fin 100) (Fin 50); mkElement (Fin 100) (Fin 80)].

(** A measured width the narrow layout can compute with: an integer in
    the safe range whose sum with the gutter is in the range too. *)
Definition narrow_width (gx : Z) (e : element) : Prop :=
  ∃ wz, el_width e = Fin wz ∧ safe wz ∧ safe (wz + gx).

(** A container narrower than its first item.  With measurements that are
    integers in the safe range (the sums the code forms included),
    [itemWidth + gutterX > 0] and [containerWidth < itemWidth], [init]
    still returns: it builds no column, stores a count of 0, and places
    every item one width and one gutter to the left of the container
    ([x = -width - gutterX]), the first at [y = undefined] and the others
    at [y = NaN]. *)
Theorem narrow_container_layout
    (fuel : nat) (ident : Z) (o : options) (d : dom) (cw iw gx : Z) :
  dom_width d = Fin cw →
  _setColumnWidth d = VNum (Fin iw) →
  fst (gutter o) = Fin gx →
  safe cw → safe iw → safe gx → safe (cw + gx) → safe (iw + gx) →
  Forall (narrow_width gx) (dom_children d) →
  0 < iw + gx → cw < iw → (0 < fuel)%nat →
  ∃ st, init fuel ident (Some o) d = Some st
        ∧ elems (colHeights st) = []
        ∧ colCount st = VNum (Fin 0)
        ∧ length (children st) = length (dom_children d)
        ∧ ∀ k c, children st !! k = Some c →
                 ∃ wz, el_width (el c) = Fin wz
                       ∧ x c = Fin (- wz - gx)
                       ∧ y c = match k with
                               | O => VUndef
                               | S _ => VNum NaN
                               end.
Proof.
  intros Hcw Hiw Hgx _ _ _ _ _ Hws Hpos Hnarrow Hfuel.
  destruct (measured_fields ident (Some o) d)
    as (Mh & Mgx & _ & Mw & Mcw & _ & _ & Mlen).
  destruct (measured_configured ident (Some o) d) as (_ & _ & _ & _ & Mel & _).
  assert (_getColumnCount (measured ident (Some o) d)
          = Fin ((cw + gx) / (iw + gx))) as Hcount.
  { rewrite _getColumnCount_eq, Mgx, Mw, Mcw. cbn [extend].
    rewrite Hcw, Hgx, Hiw. apply computeColumnCount_fin. lia. }
  assert ((cw + gx) / (iw + gx) ≤ 0) as Hle.
  { assert ((cw + gx) / (iw + gx) < 1); [|lia].
    apply Z.div_lt_upper_bound; lia. }
  eexists. split.
  { apply init_returns; rewrite Hcount; [done|simpl; lia]. }
  rewrite Hcount. cbn [columns_of].
  replace (Z.to_nat ((cw + gx) / (iw + gx))) with 0%nat by lia.
  rewrite update_colHeights, update_colCount, update_children,
    _pack_colHeights, _pack_children.
  set (s0 := set_colCount _ _).
  destruct (pack_each_failing (children s0) s0) as [He Hall];
    [done|by left|].
  destruct (pack_each_frame s0 (children s0))
    as (_ & _ & _ & _ & _ & _ & _ & _ & _ & Eel & _).
  pose proof Eel as Elen.
  apply (f_equal length) in Elen. rewrite !length_map in Elen.
  split_and!; [by rewrite He|done|by rewrite Elen| ].
  intros k c Hk. destruct (Hall k c Hk) as (Hx & Hy).
  assert (dom_children d !! k = Some (el c)) as Hd.
  { rewrite <- Mel.
    change (children (measured ident (Some o) d)) with (children s0).
    rewrite <- Eel.
    change (map el ?l) with (el <$> l).
    by rewrite list_lookup_fmap, Hk. }
  eapply Forall_lookup_1 in Hws; [|exact Hd].
  destruct Hws as (wz & Hwz & _ & _).
  exists wz. split_and!; [done| |exact Hy].
  rewrite Hx, Hwz. subst s0. cbn [gutterX set_colCount set_colHeights].
  rewrite Mgx. cbn [extend]. rewrite Hgx. simpl. f_equal; lia.
Qed.

Lemma narrow_container_layout_witness :
  ∃ st, init 1 0 (Some defaults) narrow_dom = Some st
        ∧ elems (colHeights st) = []
        ∧ colCount st = VNum (Fin 0)
        ∧ length (children st) = length (dom_children narrow_dom)
        ∧ ∀ k c, children st !! k = Some c →
                 ∃ wz, el_width (el c) = Fin wz
                       ∧ x c = Fin (- wz - 20)
                       ∧ y c = match k with
                               | O => VUndef
                               | S _ => VNum NaN
                               end.
Proof.
  apply (narrow_container_layout 1 0 defaults narrow_dom 50 100 20);
    try reflexivity; try (unfold safe, max_safe_integer; lia); try lia.
  repeat constructor; exists 100;
    (split; [reflexivity|unfold safe, max_safe_integer; lia]).
Defined.

(** ** One instance per jQuery object *)

(** The page once the constructor has returned for the first matched
    element: the new instance appended and stored for the object. *)
Definition constructed (ident : Z) (user : option options) (d : dom)
    (pg : page) : page :=
  mkPage (matched pg)
         (instances pg ++ [update (zeroed (measured ident user d))])
         (Some (length (instances pg))) (console pg).

(** One instance per jQuery object.  The plugin is called with no
    argument or with an options object on an object that holds no
    instance and matches at least one element.  If the column count is not
    [+Infinity], the call returns (given fuel for the columns to build):
    it has constructed exactly one instance however many elements are
    matched, and stored it; every further call of that kind, whatever its
    options, leaves everything as it is.  If the count is [+Infinity], the
    constructor never returns, and neither does the call. *)
Theorem plugin_is_constructed_once
    (fuel : nat) (ident : Z) (d : dom) (a : argument)
    (user : option options) (pg : page) :
  instantiation a = Some user →
  stored pg = None →
  (0 < matched pg)%nat →
  (_getColumnCount (measured ident user d) ≠ PInf →
   (columns_of (_getColumnCount (measured ident user d)) < fuel)%nat →
   shapeshift fuel ident d a pg = Some (constructed ident user d pg)
   ∧ ∀ fuel' ident' d' a',
       instantiation a' ≠ None →
       shapeshift fuel' ident' d' a' (constructed ident user d pg)
       = Some (constructed ident user d pg))
  ∧ (_getColumnCount (measured ident user d) = PInf →
     shapeshift fuel ident d a pg = None).
Proof.
  intros Ha Hs Hm. split.
  - intros Hc Hf. split.
    + unfold shapeshift. rewrite Ha.
      destruct pg as [m l s c]. cbn [matched instances stored console] in *.
      subst s. destruct m as [|n]; [lia|].
      cbn [each]. unfold instantiate at 1. cbn [stored].
      rewrite (init_returns fuel ident user d Hc Hf).
      by apply each_fixed.
    + intros fuel' ident' d' a' Ha'. unfold shapeshift.
      destruct (instantiation a') as [user'|]; [|done].
      by apply each_fixed.
  - intros Hc. unfold shapeshift. rewrite Ha.
    destruct pg as [m l s c]. cbn [matched instances stored console] in *.
    subst s. destruct m as [|n]; [lia|].
    cbn [each]. unfold instantiate at 1. cbn [stored].
    destruct (init fuel ident user d) as [st|] eqn:E; [|done].
    by destruct (init_Some _ _ _ _ _ E) as [Hn _].
Qed.

Lemma plugin_is_constructed_once_witness :
  (_getColumnCount (measured 0 None scenario_dom) ≠ PInf →
   (columns_of (_getColumnCount (measured 0 None scenario_dom)) < 4)%nat →
   shapeshift 4 0 scenario_dom ArgUndefined (mkPage 2 [] None [])
   = Some (constructed 0 None scenario_dom (mkPage 2 [] None []))
   ∧ ∀ fuel' ident' d' a',
       instantiation a' ≠ None →
       shapeshift fuel' ident' d' a'
         (constructed 0 None scenario_dom (mkPage 2 [] None []))
       = Some (constructed 0 None scenario_dom (mkPage 2 [] None [])))
  ∧ (_getColumnCount (measured 0 None scenario_dom) = PInf →
     shapeshift 4 0 scenario_dom ArgUndefined (mkPage 2 [] None []) = None).
Proof.
  apply (plugin_is_constructed_once 4 0 scenario_dom ArgUndefined None
           (mkPage 2 [] None [])).
  - reflexivity.
  - reflexivity.
  - simpl. lia.
Defined.

(** ** The layout after any run of resize notifications *)

(** A container whose items all measure width [iw] and an integer height
    that is not negative. *)
Definition uniform_dom (iw : Z) (d : dom) : Prop :=
  Forall (λ e, el_width e = Fin iw ∧ ∃ h, el_height e = Fin h ∧ 0 ≤ h)
         (dom_children d).

Definition in_column (iw gx : Z) (columns : nat) (c : child) : Prop :=
  ∃ i : nat, (i < columns)%nat
             ∧ x c = Fin (Z.of_nat i * iw + Z.of_nat i * gx).

Definition all_disjoint (iw : Z) (cs : list child) : Prop :=
  ∀ k l ck cl, (k < l)%nat → cs !! k = Some ck → cs !! l = Some cl →
               disjoint iw ck cl.

Definition inside (iw cw : Z) (c : child) : Prop :=
  ∃ xv, x c = Fin xv ∧ 0 ≤ xv ∧ xv + iw ≤ cw.

Lemma configured_children ident user d st iw :
  configured ident user d st → uniform_dom iw d →
  Forall (λ c, el_width (el c) = Fin iw) (children st)
  ∧ Forall not_negative (children st).
Proof.
  intros (_ & _ & _ & _ & He & Hh & _) Hu.
  assert (∀ k c, children st !! k = Some c →
                 el_width (el c) = Fin iw
                 ∧ ∃ h, height c = Fin h ∧ 0 ≤ h) as H.
  { intros k c Hk.
    assert (dom_children d !! k = Some (el c)) as Hd.
    { rewrite <- He. change (map el (children st)) with (el <$> children st).
      by rewrite list_lookup_fmap, Hk. }
    assert (height c = el_height (el c)) as ->.
    { assert ((height <$> children st) !! k
              = (el_height <$> dom_children d) !! k) as E
        by (change ((map height (children st)) !! k
                    = (map el_height (dom_children d)) !! k); by rewrite Hh).
      rewrite !list_lookup_fmap, Hk, Hd in E. by injection E. }
    eapply Forall_lookup_1 in Hu; [|exact Hd]. exact Hu. }
  split; apply Forall_lookup; intros k c Hk;
    destruct (H k c Hk) as (Hw & h & Hc & Hpos).
  - done.
  - unfold not_negative. by rewrite Hc.
Qed.

Lemma pack_in_column st iw gx k c :
  numeric_state st → Forall numeric_child (children st) →
  gutterX st = Fin gx →
  Forall (λ c, el_width (el c) = Fin iw) (children st) →
  children (_pack st) !! k = Some c →
  in_column iw gx (length (elems (colHeights st))) c.
Proof.
  intros Hst Hnum Hgx Hw Hk.
  assert (length (children (_pack st)) = length (children st)) as Hlen.
  { destruct (_pack_frame st) as (_ & _ & _ & _ & _ & _ & _ & _ & El & _).
    apply (f_equal length) in El. by rewrite !length_map in El. }
  assert (is_Some (children st !! k)) as [c0 Hk0].
  { apply lookup_lt_is_Some. apply lookup_lt_Some in Hk. lia. }
  rewrite (packed_child st k c0 Hk0) in Hk.
  assert (c = (_packChild (before_child st k) c0).2) as -> by congruence.
  pose proof (before_child_numeric st k Hst Hnum) as Nk.
  assert (numeric_child c0) as Hc0 by (eapply Forall_lookup_1; eauto).
  destruct (numeric_step _ c0 Nk Hc0)
    as (i & m & w1 & h & gx1 & gy1 & _ & Hm & _ & Hw1 & _ & Hgx1 & _ & _ & ->).
  destruct (before_child_frame st k) as (Fx & _ & Fl).
  rewrite Fx, Hgx in Hgx1. injection Hgx1 as <-.
  eapply Forall_lookup_1 in Hw as Hwk; [|exact Hk0]. cbn beta in Hwk.
  rewrite Hwk in Hw1. injection Hw1 as <-.
  exists i. split; [|done].
  apply lookup_lt_Some in Hm. rewrite Fl in Hm.
  unfold zheights in Hm. by rewrite length_fmap in Hm.
Qed.

Lemma scenario_resized_is_resized : resized 0 None scenario_dom scenario_resized.
Proof.
  apply (resized_step 0 None scenario_dom 5 (Fin 220)
           (default scenario_state
              (_updateContainerWidth 5 (Fin 470) scenario_state))).
  - apply (resized_step 0 None scenario_dom 5 (Fin 470) scenario_state).
    + apply (resized_init 0 None scenario_dom 4). vm_compute. reflexivity.
    + vm_compute. reflexivity.
  - vm_compute. reflexivity.
Qed.

(** The layout is sound after any run of resize notifications, for items
    that keep their measured size.  Take a container of at least one
    item, all items of integer width [iw > 0] and of integer heights that
    are not negative, integer gutters that are not negative, and a cached
    container width [cw >= iw], all in the safe range together with the
    sums the count is computed from; and suppose that in the pass [init]
    runs for these items at width [cw] every number read or computed is
    an integer in the safe range.  Then after [init] and any run of
    resize notifications the plugin has
    floor((cw + gutterX) / (iw + gutterX)) columns, no two items overlap,
    and every item lies inside the container: [0 <= x] and
    [x + iw <= cw]. *)
Theorem resized_layout_is_tidy
    (ident : Z) (user : option options) (d : dom) (st : plugin)
    (cw iw gx gy : Z) :
  resized ident user d st →
  gutter (extend user) = (Fin gx, Fin gy) →
  0 ≤ gx → 0 ≤ gy →
  dom_children d ≠ [] →
  uniform_dom iw d →
  0 < iw →
  containerWidth st = VNum (Fin cw) →
  iw ≤ cw →
  safe cw → safe iw → safe gx → safe (cw + gx) → safe (iw + gx) →
  exact_pass (zeroed (measured ident user (mkDom (Fin cw) (dom_children d)))) →
  length (elems (colHeights st)) = Z.to_nat ((cw + gx) / (iw + gx))
  ∧ all_disjoint iw (children st)
  ∧ Forall (inside iw cw) (children st).
Proof.
  intros Hr Hg Hgx0 Hgy0 Hne Hu Hiw Hcw Hfit _ _ _ _ _ Hex.
  destruct (resized_canonical _ _ _ _ Hr) as (_ & _ & Hcanon).
  destruct (Hcanon _ Hcw) as (_ & Hch & Hhe & _).
  set (d' := mkDom (Fin cw) (dom_children d)) in *.
  set (m := measured ident user d') in *.
  destruct (measured_fields ident user d')
    as (_ & Mgx & Mgy & Mw & Mcw & _).
  fold m in Mgx, Mgy, Mw, Mcw.
  rewrite Hg in Mgx, Mgy. cbn [fst snd] in Mgx, Mgy.
  pose proof (measured_configured ident user d') as Mc. fold m in Mc.
  assert (uniform_dom iw d') as Hu' by exact Hu.
  destruct (configured_children _ _ _ _ _ Mc Hu') as (Hws & Hhs).
  assert (_getColumnCount m = Fin ((cw + gx) / (iw + gx))) as Hcount.
  { rewrite _getColumnCount_eq, Mcw, Mgx, Mw.
    unfold uniform_dom in Hu. unfold _setColumnWidth. subst d'.
    cbn [dom_children dom_width].
    destruct (dom_children d) as [|e es]; [done|].
    apply Forall_cons in Hu as [[-> _] _]. simpl.
    apply computeColumnCount_fin. lia. }
  assert (1 ≤ (cw + gx) / (iw + gx)) as Hone.
  { apply Z.div_le_lower_bound; lia. }
  pose proof (Z.mul_div_le (cw + gx) (iw + gx) ltac:(lia)) as Hdiv.
  assert (length (elems (colHeights (zeroed m)))
          = Z.to_nat ((cw + gx) / (iw + gx))) as Hcols.
  { cbn [zeroed colHeights set_colCount set_colHeights elems array_of].
    by rewrite length_replicate, Hcount. }
  assert (elems (colHeights (zeroed m)) ≠ []) as Hne0.
  { intros E. rewrite E in Hcols. simpl in Hcols. lia. }
  destruct (exact_pass_numeric _ Hex Hne0) as [Hst Hnum].
  unfold fresh_at in Hch, Hhe. fold d' in Hch, Hhe. fold m in Hch, Hhe.
  rewrite Hch, Hhe, update_columns, update_children.
  split_and!; [done| |].
  - intros k l ck cl Hkl Hk Hl.
    apply (pack_apart_disjoint (zeroed m) iw gx gy k l ck cl);
      try done; lia.
  - apply Forall_lookup. intros k c Hk.
    destruct (pack_in_column (zeroed m) iw gx k c) as (i & Hi & Hx);
      try done.
    exists (Z.of_nat i * iw + Z.of_nat i * gx). split; [done|].
    rewrite Hcols in Hi. split; nia.
Qed.

Lemma resized_layout_is_tidy_witness :
  length (elems (colHeights scenario_resized))
  = Z.to_nat ((220 + 20) / (100 + 20))
  ∧ all_disjoint 100 (children scenario_resized)
  ∧ Forall (inside 100 220) (children scenario_resized).
Proof.
  apply (resized_layout_is_tidy 0 None scenario_dom scenario_resized
           220 100 20 10);
    try (unfold safe, max_safe_integer; lia).
  - exact scenario_resized_is_resized.
  - reflexivity.
  - discriminate.
  - repeat constructor; eexists; (split; [reflexivity|lia]).
  - vm_compute. reflexivity.
  - vm_compute. reflexivity.
Defined.
